(** * ExaMPM: the solver driver ([src/ExaMPM_Solver.hpp])

    A shallow embedding of [ExaMPM::Solver] (constructor and [solve]) and of
    [ExaMPM::createSolver], with the properties of the driver loop stated
    over the trace of calls the driver makes to its collaborators.

    - C++ [double] is IEEE binary64: Rocq's primitive [float], so that the
      arithmetic of [solve] can be evaluated bit for bit.
    - C++ [int] is a 32-bit two's complement integer, modelled in [Z] with
      the range written out; the operations whose behaviour C++ leaves
      undefined (conversion of an out-of-range [double], remainder by zero)
      end the run with [Undefined].
    - [Mesh], [ProblemManager], [Cajita::LoadBalancer], [TimeIntegrator] and
      the two writers live in other headers: they enter as the fields of the
      class [Collaborators], and every call the driver makes to them is
      recorded, with its arguments, in the trace. *)

From Stdlib Require Import Reals Lra Psatz.
From Stdlib Require Import ZArith List String Bool Lia Floats Permutation
  Sorted.
Import ListNotations.

Set Warnings "-inexact-float".

Open Scope Z_scope.

(** ** Machine integers *)

Module Int.
Definition min_int : Z := - 2 ^ 31.
Definition max_int : Z := 2 ^ 31 - 1.
Definition in_range (z : Z) : bool := (min_int <=? z) && (z <=? max_int).
End Int.

(** ** Outcomes: a value, a C++ exception, or undefined behaviour *)

Inductive undefined : Type :=
| FloatToIntOutOfRange   (* [conv.fpint]: truncated value not representable *)
| RemainderByZero        (* [expr.mul]: second operand of % is zero *)
| RemainderOverflow.     (* [expr.mul]: quotient not representable *)

Inductive outcome (A : Type) : Type :=
| Done (a : A)
| Throw (what : string)          (* std::runtime_error( what ) *)
| Undefined (why : undefined)
| OutOfFuel.

Arguments Done {A} a.
Arguments Throw {A} what.
Arguments Undefined {A} why.
Arguments OutOfFuel {A}.

(** ** Doubles and their conversions to and from [int] *)

Module Double.

(** The integer part of a binary64 value, rounding toward zero; [None] for
    NaN and the infinities. *)
Definition trunc_SF (x : spec_float) : option Z :=
  match x with
  | S754_zero _ => Some 0
  | S754_finite s m e =>
      let a := match e with
               | Zneg p => Z.shiftr (Zpos m) (Zpos p)
               | _ => Z.shiftl (Zpos m) e
               end in
      Some (if s then - a else a)
  | S754_infinity _ | S754_nan => None
  end.

(** [int n = x;] for a double [x]: the fractional part is discarded, and
    the behaviour is undefined when the result does not fit. *)
Definition to_int (x : float) : outcome Z :=
  match trunc_SF (Prim2SF x) with
  | Some z => if Int.in_range z then Done z else Undefined FloatToIntOutOfRange
  | None => Undefined FloatToIntOutOfRange
  end.

(** The usual arithmetic conversion of an integer operand to [double];
    exact below 2^53. *)
Definition of_int (z : Z) : float :=
  if z <? 0 then PrimFloat.opp (PrimFloat.of_uint63 (Uint63.of_Z (- z)))
  else PrimFloat.of_uint63 (Uint63.of_Z z).

(** The largest integer not above a binary64 value (the spec's [floor]). *)
Definition floor_SF (x : spec_float) : option Z :=
  match x with
  | S754_zero _ => Some 0
  | S754_finite s m e =>
      let v := if s then Zneg m else Zpos m in
      Some (match e with
            | Zneg p => v / 2 ^ Zpos p
            | _ => v * 2 ^ e
            end)
  | S754_infinity _ | S754_nan => None
  end.

Definition floor (x : float) : option Z := floor_SF (Prim2SF x).

Definition is_negative_SF (x : spec_float) : bool :=
  match x with
  | S754_finite s _ _ => s
  | S754_infinity s => s
  | _ => false
  end.

End Double.

(** ** Data shared with the collaborators *)

Definition Array3 (A : Type) : Type := (A * A * A)%type.
Definition Array6 (A : Type) : Type := (A * A * A * A * A * A)%type.

(** The template arguments of [Solver<MemorySpace, ExecutionSpace>]. *)
Inductive MemorySpace : Type := HostSpace | CudaSpace | HIPSpace.
Inductive ExecutionSpace : Type := Serial | OpenMP | Cuda | HIP.

(** The particle fields [solve] reads with [_pm->get( Location::Particle(), f )]. *)
Inductive Field : Type := Position | Velocity | J.

(** Modelled from the spec: [struct BoundaryCondition] is declared in
    ExaMPM_BoundaryConditions.hpp, which is not part of the sources at hand.
    The spec (section 3) gives it global node-index bounds [min] and [max]
    plus the rule applied at those bounds; the solver only copies the struct
    and assigns [min] and [max]. *)
Module BoundaryCondition.
Record t (Rule : Type) : Type :=
  mk { rule : Rule; min : Array3 Z; max : Array3 Z }.
Arguments mk {Rule} rule min max.
Arguments rule {Rule} t.
Arguments min {Rule} t.
Arguments max {Rule} t.
Definition set_min {Rule} (bc : t Rule) (v : Array3 Z) : t Rule :=
  mk (rule bc) v (max bc).
Definition set_max {Rule} (bc : t Rule) (v : Array3 Z) : t Rule :=
  mk (rule bc) (min bc) v.
End BoundaryCondition.

(** ** The collaborators of the solver

    Every member is a class, method or free function that [ExaMPM_Solver.hpp]
    uses and another header defines.  A method that mutates its object
    returns the new object.  [_pm] keeps a shared pointer to the very mesh
    object [_mesh] points to, so the methods of the problem manager that work
    on the grid receive the mesh as it currently is. *)
Class Collaborators : Type := {
  MPI_Comm : Type;
  ManualPartitioner : Type;
  InitFunc : Type;
  BoundaryRule : Type;
  GlobalGrid : Type;
  GlobalMesh : Type;
  Mesh : Type;
  ProblemManager : Type;
  LoadBalancer : Type;
  ParticleView : Type;

  MPI_Comm_rank : MPI_Comm -> Z;

  (* Mesh<MemorySpace>( global_bounding_box, global_num_cell, periodic,
                        partitioner, halo_cell_width, minimum_halo_cell_width,
                        comm ) *)
  make_Mesh : MemorySpace -> Array6 float -> Array3 Z -> Array3 bool ->
              ManualPartitioner -> Z -> Z -> MPI_Comm -> Mesh;
  minDomainGlobalNodeIndex : Mesh -> Array3 Z;
  maxDomainGlobalNodeIndex : Mesh -> Array3 Z;
  globalGrid : Mesh -> GlobalGrid;
  localGrid_globalGrid : Mesh -> GlobalGrid;   (* localGrid()->globalGrid() *)
  globalMesh : Mesh -> GlobalMesh;
  cellSize : Mesh -> float;
  newGlobalGrid : Mesh -> GlobalGrid -> Mesh;

  (* ProblemManager<MemorySpace>( exec_space, mesh, create_functor,
                                  particles_per_cell, bulk_modulus, density,
                                  gamma, kappa ) *)
  make_ProblemManager : ExecutionSpace -> Mesh -> InitFunc -> Z ->
                        float -> float -> float -> float -> ProblemManager;
  get : ProblemManager -> Field -> ParticleView;
  numParticle : ProblemManager -> Z;
  updateMesh : ProblemManager -> Mesh -> ProblemManager;
  communicateParticles : Mesh -> ProblemManager -> Z -> ProblemManager;

  (* Cajita::LoadBalancer( comm, global_grid, min_domain_size ) *)
  make_LoadBalancer : MPI_Comm -> GlobalGrid -> float -> LoadBalancer;
  getVertices : LoadBalancer -> Array6 float;
  getInternalVertices : LoadBalancer -> Array6 float;
  createBalancedGlobalGrid : LoadBalancer -> GlobalMesh -> ManualPartitioner ->
                             float -> LoadBalancer * GlobalGrid;

  (* TimeIntegrator::step( exec_space, pm, delta_t, gravity, bc ) *)
  step : ExecutionSpace -> Mesh -> ProblemManager -> float -> float ->
         BoundaryCondition.t BoundaryRule -> ProblemManager
}.

(** ** Calls recorded in the trace *)

Section Driver.
Context {C : Collaborators}.

Definition BC : Type := BoundaryCondition.t BoundaryRule.

Inductive call : Type :=
| construct_Mesh (mem : MemorySpace) (global_bounding_box : Array6 float)
    (global_num_cell : Array3 Z) (periodic : Array3 bool)
    (halo_cell_width minimum_halo_cell_width : Z)
| construct_ProblemManager (exec : ExecutionSpace) (particles_per_cell : Z)
    (bulk_modulus density gamma kappa : float)
| construct_LoadBalancer (min_domain_size : float)
| printf_Step (t1 num_step : Z)       (* printf( "Step %d / %d\n", .. ) *)
| TimeIntegrator_step (exec : ExecutionSpace) (delta_t gravity : float)
                      (bc : BC)
| pm_numParticle (n : Z)
| lb_createBalancedGlobalGrid (work : float) (result : GlobalGrid)
| mesh_newGlobalGrid (global_grid : GlobalGrid)
| pm_updateMesh
| pm_communicateParticles (halo_width : Z)
| SiloParticleWriter_writeTimeStep (global_grid : GlobalGrid)
    (time_step_index : Z) (time : float) (x v j : ParticleView)
| VTKDomainWriter_writeDomain (comm : MPI_Comm) (time_step : Z)
    (vertices : Array6 float) (basename : string).

(** Where a call is made: in the constructor, in [solve] ahead of the
    [for] loop, or in the body of the loop at the value [t] of the loop
    variable. *)
Inductive phase : Type :=
| Construction
| BeforeLoop
| Iteration (t : Z).

Definition event : Type := (phase * call)%type.
Definition trace : Type := list event.

(** ** The monad of the driver: an outcome and the trace so far *)

Definition M (A : Type) : Type := (outcome A * trace)%type.

Definition ret {A} (a : A) : M A := (Done a, []).

Definition bind {A B} (m : M A) (f : A -> M B) : M B :=
  match m with
  | (Done a, tr) => let '(o, tr') := f a in (o, tr ++ tr')
  | (Throw w, tr) => (Throw w, tr)
  | (Undefined u, tr) => (Undefined u, tr)
  | (OutOfFuel, tr) => (OutOfFuel, tr)
  end.

Definition emit (p : phase) (c : call) : M unit := (Done tt, [(p, c)]).
Definition lift {A} (o : outcome A) : M A := (o, []).

End Driver.

Declare Scope driver_scope.
Delimit Scope driver_scope with driver.
Notation "x <- m ;; k" := (bind m (fun x => k))
  (at level 61, m at next level, right associativity) : driver_scope.
Notation "m ;;; k" := (bind m (fun _ => k))
  (at level 61, right associativity) : driver_scope.

Open Scope driver_scope.

(** ** [class Solver] *)

Section Solver.
Context {C : Collaborators}.

(** The private members, preceded by the two template arguments. *)
Record Solver : Type := mkSolver {
  memory_space : MemorySpace;
  execution_space : ExecutionSpace;
  _dt : float;
  _gravity : float;
  _bc : BC;
  _halo_min : Z;
  _mesh : Mesh;
  _pm : ProblemManager;
  _rank : Z;
  _comm : MPI_Comm;
  _partitioner : ManualPartitioner;
  _lb : LoadBalancer
}.

(** The arguments that the constructor and [createSolver] share. *)
Record SolverArgs : Type := mkArgs {
  comm : MPI_Comm;
  global_bounding_box : Array6 float;
  global_num_cell : Array3 Z;
  periodic : Array3 bool;
  partitioner : ManualPartitioner;
  halo_cell_width : Z;
  create_functor : InitFunc;
  particles_per_cell : Z;
  bulk_modulus : float;
  density : float;
  gamma : float;
  kappa : float;
  delta_t : float;
  gravity : float;
  bc : BC
}.

(** [Solver::Solver]: the member initialisers ([_halo_min( 3 )] among
    them), then the body in source order. *)
Definition make_Solver (mem : MemorySpace) (exec : ExecutionSpace)
    (a : SolverArgs) : M Solver :=
  let dt0 := delta_t a in
  let gravity0 := gravity a in
  let bc0 := bc a in
  let halo_min0 := 3 in
  let comm0 := comm a in
  let partitioner0 := partitioner a in
  let mesh0 := make_Mesh mem (global_bounding_box a) (global_num_cell a)
                 (periodic a) partitioner0 (halo_cell_width a) halo_min0
                 comm0 in
  emit Construction
    (construct_Mesh mem (global_bounding_box a) (global_num_cell a)
       (periodic a) (halo_cell_width a) halo_min0) ;;;
  let bc1 := BoundaryCondition.set_min bc0 (minDomainGlobalNodeIndex mesh0) in
  let bc2 := BoundaryCondition.set_max bc1 (maxDomainGlobalNodeIndex mesh0) in
  let pm0 := make_ProblemManager exec mesh0 (create_functor a)
               (particles_per_cell a) (bulk_modulus a) (density a)
               (gamma a) (kappa a) in
  emit Construction
    (construct_ProblemManager exec (particles_per_cell a) (bulk_modulus a)
       (density a) (gamma a) (kappa a)) ;;;
  let rank0 := MPI_Comm_rank comm0 in
  let lb0 := make_LoadBalancer comm0 (globalGrid mesh0)
               (3 * cellSize mesh0)%float in
  emit Construction (construct_LoadBalancer (3 * cellSize mesh0)%float) ;;;
  ret (mkSolver mem exec dt0 gravity0 bc2 halo_min0 mesh0 pm0 rank0 comm0
         partitioner0 lb0).

(** [a % b] on [int]. *)
Definition int_rem (a b : Z) : outcome Z :=
  if b =? 0 then Undefined RemainderByZero
  else if (a =? Int.min_int) && (b =? -1) then Undefined RemainderOverflow
  else Done (Z.rem a b).

(** One snapshot: the particle file, then the two domain files.  [solve]
    spells these three calls out twice, ahead of the loop with index [0]
    and time [0.0], and in the loop with index [t + 1] and [time]; the
    domain writer receives the literal [0] both times. *)
Definition write_snapshot (p : phase) (s : Solver) (index : Z)
    (time : float) : M unit :=
  emit p (SiloParticleWriter_writeTimeStep (localGrid_globalGrid (_mesh s))
            index time (get (_pm s) Position) (get (_pm s) Velocity)
            (get (_pm s) J)) ;;;
  emit p (VTKDomainWriter_writeDomain (_comm s) 0 (getVertices (_lb s))
            "domain_act") ;;;
  emit p (VTKDomainWriter_writeDomain (_comm s) 0
            (getInternalVertices (_lb s)) "domain_lb").

(** The body of the [for] loop.  [t + 1] cannot overflow: [t < num_step]
    and [num_step] is an [int]. *)
Definition loop_body (write_freq num_step : Z) (delta_t : float) (t : Z)
    (st : Solver * float) : M (Solver * float) :=
  let '(s, time) := st in
  let here := Iteration t in
  (if _rank s =? 0 then
     r <- lift (int_rem t write_freq) ;;
     if r =? 0 then emit here (printf_Step (t + 1) num_step) else ret tt
   else ret tt) ;;;
  let pm1 := step (execution_space s) (_mesh s) (_pm s) delta_t (_gravity s)
               (_bc s) in
  emit here (TimeIntegrator_step (execution_space s) delta_t (_gravity s)
               (_bc s)) ;;;
  let n := numParticle pm1 in
  emit here (pm_numParticle n) ;;;
  let work := Double.of_int n in
  let '(lb1, global_grid) :=
    createBalancedGlobalGrid (_lb s) (globalMesh (_mesh s)) (_partitioner s)
      work in
  emit here (lb_createBalancedGlobalGrid work global_grid) ;;;
  let mesh1 := newGlobalGrid (_mesh s) global_grid in
  emit here (mesh_newGlobalGrid global_grid) ;;;
  let pm2 := updateMesh pm1 mesh1 in
  emit here pm_updateMesh ;;;
  let pm3 := communicateParticles mesh1 pm2 (_halo_min s) in
  emit here (pm_communicateParticles (_halo_min s)) ;;;
  let s' := mkSolver (memory_space s) (execution_space s) (_dt s)
              (_gravity s) (_bc s) (_halo_min s) mesh1 pm3 (_rank s)
              (_comm s) (_partitioner s) lb1 in
  r <- lift (int_rem t write_freq) ;;
  (if r =? 0 then write_snapshot here s' (t + 1) time else ret tt) ;;;
  ret (s', (time + delta_t)%float).

(** [for ( int t = 0; t < num_step; ++t ) body]. *)
Fixpoint for_loop (fuel : nat) (write_freq num_step : Z) (delta_t : float)
    (t : Z) (st : Solver * float) : M (Solver * float) :=
  if t <? num_step then
    match fuel with
    | O => lift OutOfFuel
    | S fuel' =>
        st' <- loop_body write_freq num_step delta_t t st ;;
        for_loop fuel' write_freq num_step delta_t (t + 1) st'
    end
  else ret st.

(** What [solve] leaves behind: the solver and the locals at the exit. *)
Record SolveExit : Type := mkExit {
  exit_solver : Solver;
  exit_num_step : Z;
  exit_delta_t : float;
  exit_time : float
}.

Definition num_step_of (s : Solver) (t_final : float) : outcome Z :=
  Double.to_int (t_final / _dt s)%float.

Definition delta_t_of (t_final : float) (num_step : Z) : float :=
  (t_final / Double.of_int num_step)%float.

(** [Solver::solve]. *)
Definition solve (s : Solver) (t_final : float) (write_freq : Z)
    : M SolveExit :=
  write_snapshot BeforeLoop s 0 0%float ;;;
  num_step <- lift (num_step_of s t_final) ;;
  let delta_t := delta_t_of t_final num_step in
  let time := 0%float in
  st <- for_loop (Z.to_nat num_step) write_freq num_step delta_t 0
          (s, time) ;;
  ret (mkExit (fst st) num_step delta_t (snd st)).

(** ** [createSolver] *)

(** The preprocessor symbols the function tests. *)
Record BuildConfig : Type := mkBuild {
  KOKKOS_ENABLE_SERIAL : bool;
  KOKKOS_ENABLE_OPENMP : bool;
  KOKKOS_ENABLE_CUDA : bool;
  KOKKOS_ENABLE_HIP : bool
}.

Definition createSolver (build : BuildConfig) (device : string)
    (a : SolverArgs) : M Solver :=
  if String.eqb device "serial" then
    if KOKKOS_ENABLE_SERIAL build then make_Solver HostSpace Serial a
    else lift (Throw "Serial Backend Not Enabled")
  else if String.eqb device "openmp" then
    if KOKKOS_ENABLE_OPENMP build then make_Solver HostSpace OpenMP a
    else lift (Throw "OpenMP Backend Not Enabled")
  else if String.eqb device "cuda" then
    if KOKKOS_ENABLE_CUDA build then make_Solver CudaSpace Cuda a
    else lift (Throw "CUDA Backend Not Enabled")
  else if String.eqb device "hip" then
    if KOKKOS_ENABLE_HIP build then make_Solver HIPSpace HIP a
    else lift (Throw "HIP Backend Not Enabled")
  else lift (Throw "invalid backend").

End Solver.

(** ** Particle migration across processes

    Modelled from the spec: [ProblemManager::communicateParticles],
    [TimeIntegrator::step] and [Cajita::LoadBalancer] are defined in headers
    that are not part of the sources at hand, and [solve] only calls them.
    The model follows sections 3, 4.2 and 4.4 of the spec: every process
    holds an array of particles; a partition gives each rank a box of cells;
    [migrate] keeps on each process the particles its box owns and sends
    every other particle to the rank the partition mapping names, which
    appends what it receives; a particle no process owns is a fatal error.
    The Integrator updates each particle in place ([gather]), and the load
    balancer maps the current partition and the workloads to a new one. *)

Module Migration.

(** Modelled from the spec: the particle record of the problem manager
    (section 3: position, velocity, deformation measure, mass). *)
Record Particle : Type := mkParticle {
  position : Array3 float;
  velocity : Array3 float;
  deformation : float;
  mass : float
}.

(** Modelled from the spec: the owned sub-box of a process in global
    cell-index coordinates (section 3, Partition), the cells [lo <= c < hi]
    axis by axis. *)
Record Box : Type := mkBox { box_lo : Array3 Z; box_hi : Array3 Z }.

(** The sub-box of each rank, in rank order. *)
Definition Partition : Type := list Box.

Record Geometry : Type := mkGeometry {
  low_corner : Array3 float;
  cell_size : float
}.

Definition axis_cell (lo h x : float) : option Z :=
  Double.floor ((x - lo) / h)%float.

Definition cell_of (g : Geometry) (x : Array3 float) : option (Array3 Z) :=
  let '(x0, x1, x2) := x in
  let '(l0, l1, l2) := low_corner g in
  match axis_cell l0 (cell_size g) x0, axis_cell l1 (cell_size g) x1,
        axis_cell l2 (cell_size g) x2 with
  | Some c0, Some c1, Some c2 => Some (c0, c1, c2)
  | _, _, _ => None
  end.

Definition in_box (b : Box) (c : Array3 Z) : bool :=
  let '(c0, c1, c2) := c in
  let '(l0, l1, l2) := box_lo b in
  let '(h0, h1, h2) := box_hi b in
  (l0 <=? c0) && (c0 <? h0) && (l1 <=? c1) && (c1 <? h1)
  && (l2 <=? c2) && (c2 <? h2).

(** Modelled from the spec: the ownership test of the Grid Manager
    (section 4.1, [ownsPosition]); the mesh header is missing. *)
Definition ownsPosition (g : Geometry) (b : Box) (x : Array3 float) : bool :=
  match cell_of g x with
  | Some c => in_box b c
  | None => false
  end.

(** The partition mapping: the first rank, from [r] on, whose box owns [x]. *)
Fixpoint owner_from (g : Geometry) (part : Partition) (r : nat)
    (x : Array3 float) : option nat :=
  match part with
  | [] => None
  | b :: rest =>
      if ownsPosition g b x then Some r else owner_from g rest (S r) x
  end.

Definition owner (g : Geometry) (part : Partition) (x : Array3 float)
    : option nat :=
  owner_from g part 0 x.

(** The particle arrays of all processes, in rank order. *)
Definition Store : Type := list (list Particle).



Definition owned_by (g : Geometry) (part : Partition) (r : nat)
    (p : Particle) : bool :=
  match nth_error part r with
  | Some b => ownsPosition g b (position p)
  | None => false
  end.

Definition staying (g : Geometry) (part : Partition) (r : nat)
    (ps : list Particle) : list Particle :=
  filter (owned_by g part r) ps.

Definition leaving (g : Geometry) (part : Partition) (r : nat)
    (ps : list Particle) : list Particle :=
  filter (fun p => negb (owned_by g part r p)) ps.

(** A particle record on its way, with the rank it is sent to; no rank
    when no process owns its position. *)
Definition address (g : Geometry) (part : Partition) (P : nat)
    (p : Particle) : option (nat * Particle) :=
  match owner g part (position p) with
  | Some d => if (d <? P)%nat then Some (d, p) else None
  | None => None
  end.

Fixpoint addressed (g : Geometry) (part : Partition) (P : nat)
    (ps : list Particle) : option (list (nat * Particle)) :=
  match ps with
  | [] => Some []
  | p :: rest =>
      match address g part P p, addressed g part P rest with
      | Some m, Some ms => Some (m :: ms)
      | _, _ => None
      end
  end.

Definition inbox (r : nat) (msgs : list (nat * Particle)) : list Particle :=
  map snd (filter (fun m => (fst m =? r)%nat) msgs).

(** Modelled from the spec: [ProblemManager::communicateParticles], the
    [migrate( newPartition, minHaloWidth )] of section 4.2, on all processes
    at once; the header of the problem manager is missing. *)
Definition migrate (g : Geometry) (part : Partition) (min_halo_width : Z)
    (st : Store) : option Store :=
  let P := List.length st in
  match addressed g part P
          (flat_map (fun r => leaving g part r (nth r st [])) (seq 0 P)) with
  | Some msgs =>
      Some (map (fun r => staying g part r (nth r st []) ++ inbox r msgs)
              (seq 0 P))
  | None => None
  end.

Section Collective.
Variable gather : Store -> Particle -> Particle.
Variable computeBalancedPartition : Partition -> list nat -> Partition.



End Collective.






End Migration.

(** ** A small concrete set of collaborators

    One process per communicator value (the communicator is its rank), a mesh
    that remembers the arguments it was built with and the global grid it was
    last given, a problem manager that only counts its particles, and a load
    balancer that numbers the grids it hands out.  With [follow = true] the
    node-index bounds the mesh reports move with the global grid it holds;
    with [follow = false] they depend on the cell counts and the halo alone. *)
Module Toy.

Record mesh : Type := mkMesh {
  num_cell : Array3 Z;
  halo : Z;
  min_halo : Z;
  grid : Z
}.

Definition bounds_min (follow : bool) (m : mesh) : Array3 Z :=
  let o := if follow then grid m else 0 in
  (halo m + o, halo m + o, halo m + o).

Definition bounds_max (follow : bool) (m : mesh) : Array3 Z :=
  let '(nx, ny, nz) := num_cell m in
  let o := if follow then grid m else 0 in
  (nx + 1 + halo m + o, ny + 1 + halo m + o, nz + 1 + halo m + o).

Definition zero6 : Array6 float :=
  (0%float, 0%float, 0%float, 0%float, 0%float, 0%float).

Definition collaborators (follow : bool) : Collaborators := {|
  MPI_Comm := Z;
  ManualPartitioner := unit;
  InitFunc := Z;
  BoundaryRule := string;
  GlobalGrid := Z;
  GlobalMesh := Array3 Z;
  Mesh := mesh;
  ProblemManager := Z;
  LoadBalancer := Z;
  ParticleView := (Field * Z)%type;
  MPI_Comm_rank := fun c => c;
  make_Mesh := fun _ _ nc _ _ h hmin _ => mkMesh nc h hmin 0;
  minDomainGlobalNodeIndex := bounds_min follow;
  maxDomainGlobalNodeIndex := bounds_max follow;
  globalGrid := grid;
  localGrid_globalGrid := grid;
  globalMesh := num_cell;
  cellSize := fun _ => 0.5%float;
  newGlobalGrid := fun m g => mkMesh (num_cell m) (halo m) (min_halo m) g;
  make_ProblemManager := fun _ _ init ppc _ _ _ _ => init * ppc;
  get := fun pm f => (f, pm);
  numParticle := fun pm => pm;
  updateMesh := fun pm _ => pm;
  communicateParticles := fun _ pm _ => pm;
  make_LoadBalancer := fun _ g _ => g;
  getVertices := fun _ => zero6;
  getInternalVertices := fun _ => zero6;
  createBalancedGlobalGrid := fun lb _ _ _ => (lb + 1, lb + 1);
  step := fun _ _ pm _ _ _ => pm
|}.

(** A run configuration: an 8x8x8 grid, halo width 4, time step [dt] and a
    caller-supplied boundary condition with bounds [(-7,-7,-7)] and
    [(-9,-9,-9)]. *)
Definition args (follow : bool) (rank : Z) (dt : float)
    : @SolverArgs (collaborators follow) :=
  @mkArgs (collaborators follow) rank zero6 (8, 8, 8) (false, false, false)
    tt 4 10 2 1%float 1%float 1%float 1%float dt 9.8%float
    (BoundaryCondition.mk "reflect"%string (-7, -7, -7) (-9, -9, -9)).

Definition serial_only : BuildConfig := mkBuild true false false false.

(** The solver the constructor builds from [args]. *)
Definition built (follow : bool) (rank : Z) (dt : float)
    : @Solver (collaborators follow) :=
  @mkSolver (collaborators follow) HostSpace Serial dt 9.8%float
    (BoundaryCondition.mk "reflect"%string (4, 4, 4) (13, 13, 13)) 3
    (mkMesh (8, 8, 8) 4 3 0) 20 rank rank tt 0.

End Toy.

(** * The vocabulary of the statements *)

(** ** The loop as a pure function of its state, and readings of a trace *)

Section Vocabulary.
Context {C : Collaborators}.

(** The progress notice of iteration [t]. *)
Definition progress_calls (s : Solver) (write_freq num_step t : Z)
    : list call :=
  if (_rank s =? 0) && (Z.rem t write_freq =? 0)
  then [printf_Step (t + 1) num_step] else [].

(** The solver after the step, the rebalancing and the migration of one
    iteration. *)
Definition lb_result (s : Solver) (pm1 : ProblemManager)
    : LoadBalancer * GlobalGrid :=
  createBalancedGlobalGrid (_lb s) (globalMesh (_mesh s)) (_partitioner s)
    (Double.of_int (numParticle pm1)).

Definition stepped (s : Solver) (delta_t : float) : ProblemManager :=
  step (execution_space s) (_mesh s) (_pm s) delta_t (_gravity s) (_bc s).

Definition next_solver (delta_t : float) (s : Solver) : Solver :=
  let pm1 := stepped s delta_t in
  let mesh1 := newGlobalGrid (_mesh s) (snd (lb_result s pm1)) in
  mkSolver (memory_space s) (execution_space s) (_dt s) (_gravity s)
    (_bc s) (_halo_min s) mesh1
    (communicateParticles mesh1 (updateMesh pm1 mesh1) (_halo_min s))
    (_rank s) (_comm s) (_partitioner s) (fst (lb_result s pm1)).

(** The six collaborator calls every iteration makes, in source order. *)
Definition core_calls (delta_t : float) (s : Solver) : list call :=
  let pm1 := stepped s delta_t in
  [ TimeIntegrator_step (execution_space s) delta_t (_gravity s) (_bc s);
    pm_numParticle (numParticle pm1);
    lb_createBalancedGlobalGrid (Double.of_int (numParticle pm1))
      (snd (lb_result s pm1));
    mesh_newGlobalGrid (snd (lb_result s pm1));
    pm_updateMesh;
    pm_communicateParticles (_halo_min s) ].

Definition snapshot_calls (s : Solver) (index : Z) (time : float)
    : list call :=
  [ SiloParticleWriter_writeTimeStep (localGrid_globalGrid (_mesh s)) index
      time (get (_pm s) Position) (get (_pm s) Velocity) (get (_pm s) J);
    VTKDomainWriter_writeDomain (_comm s) 0 (getVertices (_lb s))
      "domain_act";
    VTKDomainWriter_writeDomain (_comm s) 0 (getInternalVertices (_lb s))
      "domain_lb" ].

Definition due_snapshot (delta_t : float) (write_freq t : Z)
    (st : Solver * float) : list call :=
  if Z.rem t write_freq =? 0
  then snapshot_calls (next_solver delta_t (fst st)) (t + 1) (snd st)
  else [].

Definition body_calls (write_freq num_step : Z) (delta_t : float) (t : Z)
    (st : Solver * float) : list call :=
  progress_calls (fst st) write_freq num_step t
  ++ core_calls delta_t (fst st)
  ++ due_snapshot delta_t write_freq t st.

Definition body_next (delta_t : float) (st : Solver * float)
    : Solver * float :=
  (next_solver delta_t (fst st), (snd st + delta_t)%float).

Definition at_phase (p : phase) (cs : list call) : trace :=
  map (pair p) cs.

(** [k] iterations from loop variable [t] and state [st]. *)
Fixpoint run_state (k : nat) (delta_t : float) (st : Solver * float)
    : Solver * float :=
  match k with
  | O => st
  | S k' => run_state k' delta_t (body_next delta_t st)
  end.

Fixpoint run_trace (k : nat) (write_freq num_step : Z) (delta_t : float)
    (t : Z) (st : Solver * float) : trace :=
  match k with
  | O => []
  | S k' =>
      at_phase (Iteration t) (body_calls write_freq num_step delta_t t st)
      ++ run_trace k' write_freq num_step delta_t (t + 1)
           (body_next delta_t st)
  end.

Definition with_bc (a : SolverArgs) (b : BC) : SolverArgs :=
  mkArgs (comm a) (global_bounding_box a) (global_num_cell a) (periodic a)
    (partitioner a) (halo_cell_width a) (create_functor a)
    (particles_per_cell a) (bulk_modulus a) (density a) (gamma a) (kappa a)
    (delta_t a) (gravity a) b.

(** The mesh the constructor builds: the caller's geometry and halo width,
    and the minimum halo width [3]. *)
Definition built_mesh (mem : MemorySpace) (a : SolverArgs) : Mesh :=
  make_Mesh mem (global_bounding_box a) (global_num_cell a) (periodic a)
    (partitioner a) (halo_cell_width a) 3 (comm a).

Definition bounds_current (s : Solver) : Prop :=
  BoundaryCondition.min (_bc s) = minDomainGlobalNodeIndex (_mesh s)
  /\ BoundaryCondition.max (_bc s) = maxDomainGlobalNodeIndex (_mesh s).

(** The event is not a migration, or it is one with halo width [w]. *)
Definition migrates_with (w : Z) (e : event) : Prop :=
  match snd e with
  | pm_communicateParticles h => h = w
  | _ => True
  end.


(** The device strings [createSolver] knows. *)
Definition recognized_backends : list string :=
  ["serial"; "openmp"; "cuda"; "hip"]%string.

(** The backend a device string names is compiled in. *)
Definition backend_enabled (build : BuildConfig) (device : string) : bool :=
  if String.eqb device "serial" then KOKKOS_ENABLE_SERIAL build
  else if String.eqb device "openmp" then KOKKOS_ENABLE_OPENMP build
  else if String.eqb device "cuda" then KOKKOS_ENABLE_CUDA build
  else if String.eqb device "hip" then KOKKOS_ENABLE_HIP build
  else false.

(** The text of the exception for a device string that is refused. *)
Definition refusal (device : string) : string :=
  if String.eqb device "serial" then "Serial Backend Not Enabled"
  else if String.eqb device "openmp" then "OpenMP Backend Not Enabled"
  else if String.eqb device "cuda" then "CUDA Backend Not Enabled"
  else if String.eqb device "hip" then "HIP Backend Not Enabled"
  else "invalid backend".

Definition is_step (c : call) : bool :=
  match c with TimeIntegrator_step _ _ _ _ => true | _ => false end.

Definition is_particle_snapshot (c : call) : bool :=
  match c with
  | SiloParticleWriter_writeTimeStep _ _ _ _ _ _ => true
  | _ => false
  end.

Definition is_domain_snapshot (c : call) : bool :=
  match c with VTKDomainWriter_writeDomain _ _ _ _ => true | _ => false end.

Definition phase_eqb (p q : phase) : bool :=
  match p, q with
  | Construction, Construction => true
  | BeforeLoop, BeforeLoop => true
  | Iteration t, Iteration u => t =? u
  | _, _ => false
  end.

(** Where the calls of one kind were made, in the order of the trace. *)
Definition phases_of (kind : call -> bool) (tr : trace) : list phase :=
  map fst (filter (fun e => kind (snd e)) tr).

(** The calls made at one place, in the order of the trace. *)
Definition calls_at (p : phase) (tr : trace) : list call :=
  map snd (filter (fun e => phase_eqb (fst e) p) tr).

(** The step index each particle snapshot was labelled with. *)
Definition snapshot_labels (tr : trace) : list Z :=
  flat_map (fun e => match snd e with
                     | SiloParticleWriter_writeTimeStep _ i _ _ _ _ => [i]
                     | _ => []
                     end) tr.

(** [t, t + 1, .., t + k - 1]: the values the loop variable takes. *)
Fixpoint Zseq (t : Z) (k : nat) : list Z :=
  match k with
  | O => []
  | S k' => t :: Zseq (t + 1) k'
  end.

(** The event is not an Integrator step, or it is one of time increment [d]. *)
Definition steps_by (d : float) (e : event) : Prop :=
  match snd e with
  | TimeIntegrator_step _ delta_t _ _ => delta_t = d
  | _ => True
  end.

(** The iterations of a run of [n] steps at which a snapshot is due. *)
Definition due (write_freq n : Z) : list Z :=
  filter (fun t => Z.rem t write_freq =? 0) (Zseq 0 (Z.to_nat n)).

(** [time] after [k] passes of [time += delta_t], from [t0]. *)
Fixpoint accumulated (k : nat) (delta_t t0 : float) : float :=
  match k with
  | O => t0
  | S k' => accumulated k' delta_t (t0 + delta_t)%float
  end.

(** The step index and the time each particle snapshot was written with. *)
Definition snapshot_stamps (tr : trace) : list (Z * float) :=
  flat_map (fun e => match snd e with
                     | SiloParticleWriter_writeTimeStep _ i time _ _ _ =>
                         [(i, time)]
                     | _ => []
                     end) tr.

Definition is_progress (c : call) : bool :=
  match c with printf_Step _ _ => true | _ => false end.

(** The progress notices of a trace, in order. *)
Definition progress_notices (tr : trace) : list call :=
  filter is_progress (map snd tr).

(** The event is not a domain file, or it is one written for communicator
    [c] under step index [0] and one of the two base names of [solve]. *)
Definition domain_file_of (c : MPI_Comm) (e : event) : Prop :=
  match snd e with
  | VTKDomainWriter_writeDomain c' i _ name =>
      c' = c /\ i = 0
      /\ (name = "domain_act"%string \/ name = "domain_lb"%string)
  | _ => True
  end.

(** The event is not an Integrator step, or it is one run in [exec] under
    gravity [g]. *)
Definition steps_in (exec : ExecutionSpace) (g : float) (e : event) : Prop :=
  match snd e with
  | TimeIntegrator_step exec' _ g' _ => exec' = exec /\ g' = g
  | _ => True
  end.

(** The template arguments [createSolver] instantiates [Solver] with. *)
Definition backend_spaces (device : string)
    : option (MemorySpace * ExecutionSpace) :=
  if String.eqb device "serial" then Some (HostSpace, Serial)
  else if String.eqb device "openmp" then Some (HostSpace, OpenMP)
  else if String.eqb device "cuda" then Some (CudaSpace, Cuda)
  else if String.eqb device "hip" then Some (HIPSpace, HIP)
  else None.

(** The members [solve] only reads. *)
Definition same_settings (s s' : Solver) : Prop :=
  memory_space s' = memory_space s
  /\ execution_space s' = execution_space s
  /\ _dt s' = _dt s
  /\ _gravity s' = _gravity s
  /\ _bc s' = _bc s
  /\ _halo_min s' = _halo_min s
  /\ _rank s' = _rank s
  /\ _comm s' = _comm s
  /\ _partitioner s' = _partitioner s.

Definition is_migration (c : call) : bool :=
  match c with pm_communicateParticles _ => true | _ => false end.

(** The particle migrations of a trace, each with the place of the call. *)
Definition migrations (tr : trace) : trace :=
  filter (fun e => is_migration (snd e)) tr.

(** Modelled from the spec: [Mesh] is declared in ExaMPM_Mesh.hpp, which is
    not part of the sources at hand.  The spec (sections 3 and 4.1) derives
    the global node-index bounds from the GlobalDomain, and has a rebuild of
    the grid on a new partition keep the GlobalDomain, which a repartition
    does not change: a mesh reports after [newGlobalGrid] the bounds it
    reported before. *)
Definition rebuild_keeps_bounds : Prop :=
  forall (m : Mesh) (g : GlobalGrid),
    minDomainGlobalNodeIndex (newGlobalGrid m g) = minDomainGlobalNodeIndex m
    /\ maxDomainGlobalNodeIndex (newGlobalGrid m g)
       = maxDomainGlobalNodeIndex m.

(** The Integrator steps of a trace, each with the place of the call. *)
Definition step_events (tr : trace) : trace :=
  filter (fun e => is_step (snd e)) tr.

End Vocabulary.

(** ** Binary64 rounding *)

(** [N / D] lies in [[m, m + 1)], and in its upper half when the round bit
    is set. *)
Definition within (mrs : shr_record) (N D : Z) : Prop :=
  0 <= shr_m mrs
  /\ shr_m mrs * D <= N < (shr_m mrs + 1) * D
  /\ (shr_r mrs = true -> (2 * shr_m mrs + 1) * D <= 2 * N).

Definition pow2 (e : Z) : R := powerRZ 2 e.

(** The real number a finite binary64 value stands for. *)
Definition SF2R (x : spec_float) : R :=
  match x with
  | S754_finite s m e =>
      ((if s then -1 else 1) * IZR (Zpos m) * pow2 e)%R
  | _ => 0%R
  end.

(** [v] lies in [[m, m + 1)], where the round and sticky bits say. *)
Definition located (mrs : shr_record) (v : R) : Prop :=
  0 <= shr_m mrs
  /\ (IZR (shr_m mrs) <= v < IZR (shr_m mrs) + 1)%R
  /\ match shr_r mrs, shr_s mrs with
     | false, false => v = IZR (shr_m mrs)
     | false, true => (IZR (shr_m mrs) < v < IZR (shr_m mrs) + / 2)%R
     | true, false => v = (IZR (shr_m mrs) + / 2)%R
     | true, true => (IZR (shr_m mrs) + / 2 < v)%R
     end.

(** The real value of a double. *)
Definition B2R (x : float) : R := SF2R (Prim2SF x).

(** [x] and [y] have opposite signs, or [x] is zero; [y] is not zero. *)
Definition opposite_signs (x y : float) : bool :=
  ((x <=? 0)%float && (0 <? y)%float) || ((0 <=? x)%float && (y <? 0)%float).

(** * Lemmas *)

(** ** The conversions, evaluated *)

Example to_int_100 : Double.to_int (1.0 / 0.01)%float = Done 100.
Proof. reflexivity. Qed.
Example to_int_trunc_neg : Double.to_int (-2.5)%float = Done (-2).
Proof. reflexivity. Qed.
Example floor_neg : Double.floor (-2.5)%float = Some (-3).
Proof. reflexivity. Qed.
Example to_int_big : Double.to_int (1e300)%float = Undefined FloatToIntOutOfRange.
Proof. reflexivity. Qed.
Example of_int_100 : Double.of_int 100 = 100%float.
Proof. reflexivity. Qed.
Example of_int_m3 : Double.of_int (-3) = (-3)%float.
Proof. reflexivity. Qed.

Lemma built_by_createSolver (follow : bool) (rank : Z) (dt : float) :
  fst (createSolver Toy.serial_only "serial" (Toy.args follow rank dt))
  = Done (Toy.built follow rank dt).
Proof. destruct follow; reflexivity. Qed.

(** ** The loop *)

Section Loop.
Context {C : Collaborators}.

Lemma int_rem_defined (a b : Z) :
  b <> 0 -> 0 <= a -> int_rem a b = Done (Z.rem a b).
Proof.
  intros Hb Ha. unfold int_rem.
  destruct (Z.eqb_spec b 0) as [|_]; [contradiction|].
  destruct (Z.eqb_spec a Int.min_int) as [E|_]; [|reflexivity].
  unfold Int.min_int in E. lia.
Qed.

Lemma write_snapshot_eq (p : phase) (s : Solver) (i : Z) (time : float) :
  write_snapshot p s i time = (Done tt, at_phase p (snapshot_calls s i time)).
Proof. reflexivity. Qed.

Lemma loop_body_eq (write_freq num_step : Z) (delta_t : float) (t : Z)
    (st : Solver * float) :
  write_freq <> 0 -> 0 <= t ->
  loop_body write_freq num_step delta_t t st
  = (Done (body_next delta_t st),
     at_phase (Iteration t) (body_calls write_freq num_step delta_t t st)).
Proof.
  intros Hw Ht. destruct st as [s time].
  unfold loop_body, body_calls, body_next, progress_calls, due_snapshot,
    core_calls, next_solver, stepped, lb_result.
  rewrite (int_rem_defined t write_freq Hw Ht). cbv zeta. cbn [fst snd lift bind].
  destruct (createBalancedGlobalGrid (_lb s) (globalMesh (_mesh s))
              (_partitioner s) _) as [lb1 g].
  destruct (_rank s =? 0); destruct (Z.rem t write_freq =? 0); reflexivity.
Qed.

Lemma for_loop_eq (write_freq num_step : Z) (delta_t : float) :
  write_freq <> 0 ->
  forall (fuel : nat) (t : Z) (st : Solver * float),
    0 <= t -> (Z.to_nat (num_step - t) <= fuel)%nat ->
    for_loop fuel write_freq num_step delta_t t st
    = (Done (run_state (Z.to_nat (num_step - t)) delta_t st),
       run_trace (Z.to_nat (num_step - t)) write_freq num_step delta_t t st).
Proof.
  intros Hw. induction fuel as [|fuel IH]; intros t st Ht Hf.
  - cbn. destruct (Z.ltb_spec t num_step) as [Hlt|Hge]; [lia|].
    replace (Z.to_nat (num_step - t)) with 0%nat by lia. reflexivity.
  - cbn [for_loop]. destruct (Z.ltb_spec t num_step) as [Hlt|Hge].
    + rewrite (loop_body_eq write_freq num_step delta_t t st Hw Ht). cbn [bind].
      rewrite IH by lia.
      replace (Z.to_nat (num_step - t))
        with (S (Z.to_nat (num_step - (t + 1)))) by lia.
      reflexivity.
    + replace (Z.to_nat (num_step - t)) with 0%nat by lia. reflexivity.
Qed.

(** [solve] on a defined run: its exit and its whole trace. *)
Lemma solve_eq (s : Solver) (t_final : float) (write_freq n : Z) :
  write_freq <> 0 -> num_step_of s t_final = Done n ->
  solve s t_final write_freq
  = (Done (mkExit
             (fst (run_state (Z.to_nat n) (delta_t_of t_final n)
                     (s, 0%float)))
             n (delta_t_of t_final n)
             (snd (run_state (Z.to_nat n) (delta_t_of t_final n)
                     (s, 0%float)))),
     at_phase BeforeLoop (snapshot_calls s 0 0%float)
     ++ run_trace (Z.to_nat n) write_freq n (delta_t_of t_final n) 0
          (s, 0%float)).
Proof.
  intros Hw Hn. unfold solve. rewrite write_snapshot_eq, Hn. cbn [bind lift].
  rewrite (for_loop_eq write_freq n (delta_t_of t_final n) Hw (Z.to_nat n) 0
             (s, 0%float)) by (rewrite ?Z.sub_0_r; lia).
  rewrite Z.sub_0_r. cbn. rewrite app_nil_r. reflexivity.
Qed.

(** *** Runs of any outcome

    When a remainder is undefined the body stops early: its trace is then
    an initial part of the calls of a whole iteration. *)

Lemma loop_body_prefix (write_freq num_step : Z) (delta_t : float) (t : Z)
    (st : Solver * float) :
  exists rest,
    at_phase (Iteration t) (body_calls write_freq num_step delta_t t st)
    = snd (loop_body write_freq num_step delta_t t st) ++ rest.
Proof.
  destruct st as [s time].
  unfold loop_body, body_calls, progress_calls, due_snapshot, core_calls,
    next_solver, stepped, lb_result, int_rem.
  cbv zeta. cbn [fst snd].
  destruct (createBalancedGlobalGrid (_lb s) (globalMesh (_mesh s))
              (_partitioner s) _) as [lb1 g].
  destruct (_rank s =? 0); destruct (write_freq =? 0);
    destruct ((t =? Int.min_int) && (write_freq =? -1));
    cbn [lift bind fst snd andb];
    try destruct (Z.rem t write_freq =? 0);
    cbn; eexists; reflexivity.
Qed.

Lemma loop_body_done (write_freq num_step : Z) (delta_t : float) (t : Z)
    (st st' : Solver * float) :
  fst (loop_body write_freq num_step delta_t t st) = Done st' ->
  st' = body_next delta_t st.
Proof.
  destruct st as [s time].
  unfold loop_body, body_next, next_solver, stepped, lb_result, int_rem.
  cbv zeta. cbn [fst snd].
  destruct (createBalancedGlobalGrid (_lb s) (globalMesh (_mesh s))
              (_partitioner s) _) as [lb1 g].
  destruct (_rank s =? 0); destruct (write_freq =? 0);
    destruct ((t =? Int.min_int) && (write_freq =? -1));
    cbn [lift bind fst snd andb];
    try destruct (Z.rem t write_freq =? 0);
    cbn; intros H; inversion H; reflexivity.
Qed.

Lemma Forall_prefix {A} (P : A -> Prop) (l l1 l2 : list A) :
  l = l1 ++ l2 -> Forall P l -> Forall P l1.
Proof. intros -> H. apply Forall_app in H. tauto. Qed.

(** An invariant of the solver and a property of the calls of one
    iteration carry over to every run of the loop, completed or not. *)
Lemma for_loop_Forall (Inv : Solver -> Prop) (P : event -> Prop) :
  (forall dt s, Inv s -> Inv (next_solver dt s)) ->
  (forall wf n dt t st, Inv (fst st) ->
     Forall P (at_phase (Iteration t) (body_calls wf n dt t st))) ->
  forall fuel wf n dt t st, Inv (fst st) ->
    Forall P (snd (for_loop fuel wf n dt t st)).
Proof.
  intros Hinv HP. induction fuel as [|fuel IH]; intros wf n dt t st Hst;
    cbn [for_loop]; destruct (t <? n); try (cbn; constructor).
  destruct (loop_body_prefix wf n dt t st) as [rest Hrest].
  pose proof (loop_body_done wf n dt t st) as Hdone.
  specialize (HP wf n dt t st Hst).
  destruct (loop_body wf n dt t st) as [o tr]. cbn [fst snd] in *.
  apply (Forall_prefix P _ tr rest Hrest) in HP.
  destruct o as [st'| | |]; cbn [bind]; try exact HP.
  specialize (Hdone st' eq_refl). subst st'.
  specialize (IH wf n dt (t + 1) (body_next dt st) (Hinv dt (fst st) Hst)).
  destruct (for_loop fuel wf n dt (t + 1) (body_next dt st)) as [o' tr'].
  apply Forall_app. split; assumption.
Qed.

Lemma solve_Forall (Inv : Solver -> Prop) (P : event -> Prop) :
  (forall dt s, Inv s -> Inv (next_solver dt s)) ->
  (forall wf n dt t st, Inv (fst st) ->
     Forall P (at_phase (Iteration t) (body_calls wf n dt t st))) ->
  (forall s, Inv s -> Forall P (at_phase BeforeLoop (snapshot_calls s 0 0%float))) ->
  forall s t_final write_freq, Inv s ->
    Forall P (snd (solve s t_final write_freq)).
Proof.
  intros Hinv HP H0 s t_final wf Hs. unfold solve.
  rewrite write_snapshot_eq. cbn [bind].
  destruct (num_step_of s t_final) as [n| | |]; cbn [lift bind];
    rewrite ?app_nil_r; try (apply H0; exact Hs).
  pose proof (for_loop_Forall Inv P Hinv HP (Z.to_nat n) wf n
                (delta_t_of t_final n) 0 (s, 0%float) Hs) as HF.
  destruct (for_loop _ _ _ _ _ _) as [o tr]. cbn [snd] in HF.
  destruct o; cbn [bind ret snd]; rewrite ?app_nil_r; apply Forall_app;
    split; try (apply H0; exact Hs); assumption.
Qed.

End Loop.

(** ** The constructor and the backends *)

Section Construction.
Context {C : Collaborators}.

Lemma make_Solver_done (mem : MemorySpace) (exec : ExecutionSpace)
    (a : SolverArgs) :
  exists s tr, make_Solver mem exec a = (Done s, tr)
    /\ _mesh s = built_mesh mem a
    /\ _halo_min s = 3
    /\ _bc s = BoundaryCondition.mk (BoundaryCondition.rule (bc a))
                 (minDomainGlobalNodeIndex (built_mesh mem a))
                 (maxDomainGlobalNodeIndex (built_mesh mem a))
    /\ tr <> [].
Proof.
  eexists. eexists. split; [reflexivity|].
  cbn [_mesh _halo_min _bc].
  split; [reflexivity|]. split; [reflexivity|]. split; [reflexivity|].
  discriminate.
Qed.


Lemma recognized_spec (device : string) :
  In device recognized_backends <->
  (String.eqb device "serial" || String.eqb device "openmp"
   || String.eqb device "cuda" || String.eqb device "hip") = true.
Proof.
  unfold recognized_backends. cbn [In].
  destruct (String.eqb_spec device "serial");
    destruct (String.eqb_spec device "openmp");
    destruct (String.eqb_spec device "cuda");
    destruct (String.eqb_spec device "hip"); cbn [orb];
    split; intros H; try reflexivity; try discriminate; subst; auto;
    intuition congruence.
Qed.

Lemma refusal_nonempty (device : string) : refusal device <> ""%string.
Proof.
  unfold refusal.
  repeat match goal with |- context [String.eqb ?a ?b] =>
    destruct (String.eqb a b) end; discriminate.
Qed.

End Construction.

(** ** Reading a trace of the loop *)

Section Observations.
Context {C : Collaborators}.

Lemma Zseq_length (t : Z) (k : nat) : List.length (Zseq t k) = k.
Proof. revert t. induction k as [|k IH]; intros t; cbn; [|rewrite IH]; reflexivity. Qed.

Lemma Zseq_In (t : Z) (k : nat) (u : Z) :
  In u (Zseq t k) <-> t <= u < t + Z.of_nat k.
Proof.
  revert t. induction k as [|k IH]; intros t; cbn [Zseq In].
  - lia.
  - rewrite IH. lia.
Qed.

Lemma phases_of_app (kind : call -> bool) (tr1 tr2 : trace) :
  phases_of kind (tr1 ++ tr2) = phases_of kind tr1 ++ phases_of kind tr2.
Proof. unfold phases_of. rewrite filter_app, map_app. reflexivity. Qed.

Lemma calls_at_app (p : phase) (tr1 tr2 : trace) :
  calls_at p (tr1 ++ tr2) = calls_at p tr1 ++ calls_at p tr2.
Proof. unfold calls_at. rewrite filter_app, map_app. reflexivity. Qed.

Lemma phases_of_at_phase (kind : call -> bool) (p : phase) (cs : list call) :
  phases_of kind (at_phase p cs) = map (fun _ => p) (filter kind cs).
Proof.
  unfold phases_of, at_phase. induction cs as [|c cs IH]; [reflexivity|].
  cbn [map filter snd]. destruct (kind c); cbn [map fst]; rewrite IH;
    reflexivity.
Qed.

Lemma phase_eqb_refl (p : phase) : phase_eqb p p = true.
Proof. destruct p; cbn; try reflexivity. apply Z.eqb_refl. Qed.

Lemma calls_at_same (p : phase) (cs : list call) :
  calls_at p (at_phase p cs) = cs.
Proof.
  unfold calls_at, at_phase. induction cs as [|c cs IH]; [reflexivity|].
  cbn [map filter fst]. rewrite phase_eqb_refl. cbn [map snd]. rewrite IH.
  reflexivity.
Qed.

Lemma calls_at_other (p q : phase) (cs : list call) :
  phase_eqb q p = false -> calls_at p (at_phase q cs) = [].
Proof.
  intros H. unfold calls_at, at_phase. induction cs as [|c cs IH];
    [reflexivity|].
  cbn [map filter fst]. rewrite H. exact IH.
Qed.

(** The calls of one iteration, kind by kind. *)
Lemma body_calls_steps (wf n : Z) (dt : float) (t : Z) (st : Solver * float) :
  filter is_step (body_calls wf n dt t st)
  = [TimeIntegrator_step (execution_space (fst st)) dt (_gravity (fst st))
       (_bc (fst st))].
Proof.
  unfold body_calls, progress_calls, due_snapshot, core_calls, snapshot_calls.
  rewrite !filter_app.
  destruct (_ && _); destruct (Z.rem t wf =? 0); reflexivity.
Qed.

Lemma body_calls_particle_snapshots (wf n : Z) (dt : float) (t : Z)
    (st : Solver * float) :
  map (fun _ => Iteration t)
    (filter is_particle_snapshot (body_calls wf n dt t st))
  = if Z.rem t wf =? 0 then [Iteration t] else [].
Proof.
  unfold body_calls, progress_calls, due_snapshot, core_calls, snapshot_calls.
  rewrite !filter_app.
  destruct (_ && _); destruct (Z.rem t wf =? 0); reflexivity.
Qed.

Lemma body_calls_domain_snapshots (wf n : Z) (dt : float) (t : Z)
    (st : Solver * float) :
  map (fun _ => Iteration t)
    (filter is_domain_snapshot (body_calls wf n dt t st))
  = if Z.rem t wf =? 0 then [Iteration t; Iteration t] else [].
Proof.
  unfold body_calls, progress_calls, due_snapshot, core_calls, snapshot_calls.
  rewrite !filter_app.
  destruct (_ && _); destruct (Z.rem t wf =? 0); reflexivity.
Qed.

Lemma run_trace_steps (k : nat) (wf n : Z) (dt : float) (t : Z)
    (st : Solver * float) :
  phases_of is_step (run_trace k wf n dt t st) = map Iteration (Zseq t k).
Proof.
  revert t st. induction k as [|k IH]; intros t st; [reflexivity|].
  cbn [run_trace Zseq map]. rewrite phases_of_app, phases_of_at_phase.
  rewrite body_calls_steps, IH. reflexivity.
Qed.

Lemma run_trace_particle_snapshots (k : nat) (wf n : Z) (dt : float) (t : Z)
    (st : Solver * float) :
  phases_of is_particle_snapshot (run_trace k wf n dt t st)
  = map Iteration (filter (fun u => Z.rem u wf =? 0) (Zseq t k)).
Proof.
  revert t st. induction k as [|k IH]; intros t st; [reflexivity|].
  cbn [run_trace Zseq filter]. rewrite phases_of_app, phases_of_at_phase.
  rewrite body_calls_particle_snapshots, IH.
  destruct (Z.rem t wf =? 0); reflexivity.
Qed.

Lemma run_trace_domain_snapshots (k : nat) (wf n : Z) (dt : float) (t : Z)
    (st : Solver * float) :
  phases_of is_domain_snapshot (run_trace k wf n dt t st)
  = flat_map (fun u => [Iteration u; Iteration u])
      (filter (fun u => Z.rem u wf =? 0) (Zseq t k)).
Proof.
  revert t st. induction k as [|k IH]; intros t st; [reflexivity|].
  cbn [run_trace Zseq filter]. rewrite phases_of_app, phases_of_at_phase.
  rewrite body_calls_domain_snapshots, IH.
  destruct (Z.rem t wf =? 0); reflexivity.
Qed.

Lemma run_trace_labels (k : nat) (wf n : Z) (dt : float) (t : Z)
    (st : Solver * float) :
  snapshot_labels (run_trace k wf n dt t st)
  = map (fun u => u + 1) (filter (fun u => Z.rem u wf =? 0) (Zseq t k)).
Proof.
  revert t st. induction k as [|k IH]; intros t st; [reflexivity|].
  cbn [run_trace Zseq filter]. unfold snapshot_labels in *.
  rewrite flat_map_app, IH.
  unfold body_calls, progress_calls, due_snapshot, core_calls, snapshot_calls,
    at_phase.
  rewrite !map_app, !flat_map_app.
  destruct (_ && _); destruct (Z.rem t wf =? 0); reflexivity.
Qed.

(** The state in which iteration [t0 + i] starts. *)
Lemma run_trace_calls_at (k : nat) (wf n : Z) (dt : float) (t0 : Z)
    (st : Solver * float) (i : nat) :
  (i < k)%nat ->
  calls_at (Iteration (t0 + Z.of_nat i)) (run_trace k wf n dt t0 st)
  = body_calls wf n dt (t0 + Z.of_nat i) (run_state i dt st).
Proof.
  revert t0 st i. induction k as [|k IH]; intros t0 st i Hi; [lia|].
  cbn [run_trace]. rewrite calls_at_app. destruct i as [|i].
  - replace (t0 + Z.of_nat 0) with t0 by lia. rewrite calls_at_same.
    cbn [run_state].
    assert (E : forall k' t1 st1, t0 < t1 ->
              calls_at (Iteration t0) (run_trace k' wf n dt t1 st1) = []).
    { induction k' as [|k' IH']; intros t1 st1 Ht; [reflexivity|].
      cbn [run_trace]. rewrite calls_at_app, calls_at_other, IH' by
        (try lia; cbn; apply Z.eqb_neq; lia). reflexivity. }
    rewrite E by lia. apply app_nil_r.
  - rewrite calls_at_other by (cbn; apply Z.eqb_neq; lia).
    replace (t0 + Z.of_nat (S i)) with (t0 + 1 + Z.of_nat i) by lia.
    rewrite IH by lia. reflexivity.
Qed.

Lemma run_trace_steps_by (k : nat) (wf n : Z) (dt : float) (t : Z)
    (st : Solver * float) :
  Forall (steps_by dt) (run_trace k wf n dt t st).
Proof.
  revert t st. induction k as [|k IH]; intros t st; [constructor|].
  cbn [run_trace]. apply Forall_app. split; [|apply IH].
  unfold body_calls, progress_calls, due_snapshot, core_calls, at_phase.
  rewrite !map_app. apply Forall_app; split; [|apply Forall_app; split].
  - destruct (_ && _); cbn [map]; repeat constructor.
  - cbn [map]. repeat constructor.
  - destruct (_ =? _); cbn [map snapshot_calls]; repeat constructor.
Qed.

Lemma solve_trace_eq (s : Solver) (t_final : float) (write_freq n : Z) :
  write_freq <> 0 -> num_step_of s t_final = Done n ->
  snd (solve s t_final write_freq)
  = at_phase BeforeLoop (snapshot_calls s 0 0%float)
    ++ run_trace (Z.to_nat n) write_freq n (delta_t_of t_final n) 0
         (s, 0%float).
Proof. intros Hw Hn. rewrite (solve_eq s t_final write_freq n Hw Hn). reflexivity. Qed.

Lemma snapshot_labels_app (tr1 tr2 : trace) :
  snapshot_labels (tr1 ++ tr2) = snapshot_labels tr1 ++ snapshot_labels tr2.
Proof. apply flat_map_app. Qed.

(** The step indices the particle writer is handed: [0] ahead of the loop
    and [t + 1] in iteration [t]. *)
Lemma particle_snapshot_labels (s : Solver) (t_final : float)
    (write_freq n : Z) :
  write_freq <> 0 -> num_step_of s t_final = Done n ->
  snapshot_labels (snd (solve s t_final write_freq))
  = 0 :: map (fun t => t + 1)
           (filter (fun t => Z.rem t write_freq =? 0) (Zseq 0 (Z.to_nat n))).
Proof.
  intros Hw Hn. rewrite (solve_trace_eq s t_final write_freq n Hw Hn).
  rewrite snapshot_labels_app, run_trace_labels. reflexivity.
Qed.

End Observations.

(** ** Binary64 division of a smaller by a larger positive number

    What follows works on [SpecFloat]'s integer model of the operations,
    which the primitive operations satisfy ([FloatAxioms]). *)

Lemma digits2_pos_bounds (p : positive) :
  2 ^ (Zpos (digits2_pos p) - 1) <= Zpos p < 2 ^ Zpos (digits2_pos p).
Proof.
  induction p as [p IH|p IH|]; cbn [digits2_pos].
  - rewrite Pos2Z.inj_succ, (Pos2Z.inj_xI p).
    replace (Z.succ (Zpos (digits2_pos p)) - 1)
      with (Z.succ (Zpos (digits2_pos p) - 1)) by lia.
    rewrite !Z.pow_succ_r by lia.
    generalize dependent (2 ^ (Zpos (digits2_pos p) - 1)).
    generalize (2 ^ Zpos (digits2_pos p)). intros; lia.
  - rewrite Pos2Z.inj_succ, (Pos2Z.inj_xO p).
    replace (Z.succ (Zpos (digits2_pos p)) - 1)
      with (Z.succ (Zpos (digits2_pos p) - 1)) by lia.
    rewrite !Z.pow_succ_r by lia.
    generalize dependent (2 ^ (Zpos (digits2_pos p) - 1)).
    generalize (2 ^ Zpos (digits2_pos p)). intros; lia.
  - cbn. lia.
Qed.

Lemma shr_1_within (mrs : shr_record) (N D : Z) :
  0 < D -> within mrs N D -> within (shr_1 mrs) N (2 * D).
Proof.
  intros HD. destruct mrs as [m r s]. unfold within. cbn [shr_m shr_r].
  intros (Hm & Hv & _).
  destruct m as [|p|p]; [| |lia].
  - cbn [shr_1 shr_m shr_r]. repeat split; try lia; try discriminate.
  - destruct p as [p|p|]; cbn [shr_1 shr_m shr_r];
      rewrite ?(Pos2Z.inj_xI p), ?(Pos2Z.inj_xO p) in Hv;
      repeat split; try lia; try discriminate.
Qed.

Lemma iter_pos_within (p : positive) :
  forall (mrs : shr_record) (N D : Z),
    0 < D -> within mrs N D ->
    within (iter_pos shr_1 p mrs) N (2 ^ Zpos p * D).
Proof.
  induction p as [p IH|p IH|]; intros mrs N D HD H; cbn [iter_pos].
  - rewrite (Pos2Z.inj_xI p).
    replace (2 ^ (2 * Zpos p + 1) * D)
      with (2 ^ Zpos p * (2 ^ Zpos p * (2 * D))).
    + apply IH; [|apply IH; [lia|apply shr_1_within; assumption]].
      assert (0 < 2 ^ Zpos p) by (apply Z.pow_pos_nonneg; lia). nia.
    + replace (2 * Zpos p + 1) with (Zpos p + Zpos p + 1) by lia.
      rewrite !Z.pow_add_r by lia. ring.
  - rewrite (Pos2Z.inj_xO p).
    replace (2 ^ (2 * Zpos p) * D) with (2 ^ Zpos p * (2 ^ Zpos p * D)).
    + apply IH; [|apply IH; assumption].
      assert (0 < 2 ^ Zpos p) by (apply Z.pow_pos_nonneg; lia). nia.
    + replace (2 * Zpos p) with (Zpos p + Zpos p) by lia.
      rewrite !Z.pow_add_r by lia. ring.
  - apply shr_1_within; assumption.
Qed.

(** A shift by [n] places (none when [n <= 0]). *)
Lemma shr_within (mrs : shr_record) (e n N D : Z) :
  0 < D -> within mrs N D ->
  exists k, 0 <= k /\ k = Z.max 0 n
    /\ snd (shr mrs e n) = e + k
    /\ within (fst (shr mrs e n)) N (2 ^ k * D).
Proof.
  intros HD H. destruct n as [|p|p]; cbn [shr fst snd].
  - exists 0. rewrite Z.add_0_r, Z.pow_0_r, Z.mul_1_l. repeat split; try lia;
      apply H.
  - exists (Zpos p). repeat split; try lia;
      apply (iter_pos_within p mrs N D HD H).
  - exists 0. rewrite Z.add_0_r, Z.pow_0_r, Z.mul_1_l. repeat split; try lia;
      apply H.
Qed.

Lemma round_nearest_even_cases (mrs : shr_record) :
  let m' := round_nearest_even (shr_m mrs) (loc_of_shr_record mrs) in
  m' = shr_m mrs \/ (m' = shr_m mrs + 1 /\ shr_r mrs = true).
Proof.
  destruct mrs as [m [|] [|]]; cbn; auto.
  destruct (Z.even m); auto.
Qed.

Lemma shr_m_of_loc (m : Z) (l : location) : shr_m (shr_record_of_loc m l) = m.
Proof. destruct l as [|[| |]]; reflexivity. Qed.

Lemma Zdigits2_below (m b : Z) : 0 <= m -> 0 <= b -> m < 2 ^ b -> Zdigits2 m <= b.
Proof.
  intros Hm Hb H. destruct m as [|p|p]; cbn [Zdigits2]; [lia| |lia].
  destruct (digits2_pos_bounds p) as [Hlo _].
  assert (2 ^ (Zpos (digits2_pos p) - 1) < 2 ^ b) by lia.
  apply Z.pow_lt_mono_r_iff in H0; lia.
Qed.

Lemma mul_lt_cancel (a b c : Z) : 0 < c -> a * c < b * c -> a < b.
Proof. intros Hc H. apply Z.mul_lt_mono_pos_r in H; assumption. Qed.

(** Rounding what lies below one, and not within [2^-54] of it, gives a
    value below one. *)
Lemma binary_round_aux_below_one (m e : Z) (l : location) (N D : Z) :
  0 < D ->
  within (shr_record_of_loc m l) N D ->
  e <= -53 ->
  N < 2 ^ (- e) * D ->
  2 ^ 54 * N < (2 ^ 54 - 1) * (2 ^ (- e) * D) ->
  Double.trunc_SF (binary_round_aux 53 1024 false m e l) = Some 0.
Proof.
  intros HD Hw He Hlt Hfar.
  assert (Hm : 0 <= m /\ m * D <= N).
  { destruct Hw as (H0 & H1 & _). rewrite shr_m_of_loc in *. lia. }
  assert (Hmb : m < 2 ^ (- e)).
  { apply (mul_lt_cancel m (2 ^ (- e)) D HD). lia. }
  assert (Hdig : Zdigits2 m + e <= 0).
  { pose proof (Zdigits2_below m (- e) (proj1 Hm) ltac:(lia) Hmb). lia. }
  unfold binary_round_aux, shr_fexp.
  set (n1 := fexp 53 1024 (Zdigits2 m + e) - e).
  assert (Hn1 : e + n1 <= -53).
  { unfold n1, fexp, emin. lia. }
  destruct (shr_within (shr_record_of_loc m l) e n1 N D HD Hw)
    as (k1 & Hk1 & Hk1' & He1 & Hw1).
  destruct (shr (shr_record_of_loc m l) e n1) as [mrs1 e1].
  cbn [fst snd] in He1, Hw1.
  set (E1 := - e1).
  assert (HE1 : 53 <= E1) by (unfold E1; lia).
  assert (Hpow : 2 ^ (- e) = 2 ^ E1 * 2 ^ k1).
  { rewrite <- Z.pow_add_r by lia. f_equal. unfold E1. lia. }
  assert (HA : 0 < 2 ^ k1 * D).
  { apply Z.mul_pos_pos; [apply Z.pow_pos_nonneg; lia|exact HD]. }
  set (A := 2 ^ k1 * D) in *.
  assert (HP : 2 ^ 53 <= 2 ^ E1) by (apply Z.pow_le_mono_r; lia).
  set (P := 2 ^ E1) in *.
  replace (2 ^ (- e) * D) with (P * A) in Hlt, Hfar
    by (rewrite Hpow; unfold A; ring).
  destruct Hw1 as (Hm1 & Hv1 & Hr1).
  pose proof (round_nearest_even_cases mrs1) as Hround. cbv zeta in Hround.
  set (m1' := round_nearest_even (shr_m mrs1) (loc_of_shr_record mrs1)) in *.
  assert (Hm1lt : shr_m mrs1 < P).
  { apply (mul_lt_cancel (shr_m mrs1) P A HA). lia. }
  assert (Hm1' : 0 <= m1' < P).
  { destruct Hround as [->|[-> Hr]]; [lia|].
    split; [lia|]. specialize (Hr1 Hr).
    assert (shr_m mrs1 + 1 <> P); [|lia].
    intros Heq.
    assert (HPA : 2 ^ 53 * A <= P * A)
      by (apply Z.mul_le_mono_nonneg_r; lia).
    replace (shr_m mrs1) with (P - 1) in Hr1 by lia.
    change (2 ^ 54) with (2 * 2 ^ 53) in Hfar. lia. }
  set (n2 := fexp 53 1024 (Zdigits2 m1' + e1) - e1).
  assert (Hw2 : within (shr_record_of_loc m1' loc_Exact) m1' 1).
  { unfold within. cbn [shr_record_of_loc shr_m shr_r].
    repeat split; try lia; discriminate. }
  destruct (shr_within (shr_record_of_loc m1' loc_Exact) e1 n2 m1' 1
              ltac:(lia) Hw2) as (k2 & Hk2 & _ & He2 & Hw3).
  destruct (shr (shr_record_of_loc m1' loc_Exact) e1 n2) as [mrs2 e2].
  cbn [fst snd] in He2, Hw3.
  destruct Hw3 as (Hm2 & Hv2 & _). rewrite Z.mul_1_r in Hv2.
  destruct (shr_m mrs2) as [|p|p]; [reflexivity| |lia].
  assert (Hk2lt : k2 < E1).
  { apply (Z.pow_lt_mono_r_iff 2); [lia|lia|].
    assert (1 * 2 ^ k2 <= Zpos p * 2 ^ k2)
      by (apply Z.mul_le_mono_nonneg_r; [apply Z.pow_nonneg|]; lia).
    fold P. lia. }
  assert (He2neg : e2 < 0) by (unfold E1 in Hk2lt; lia).
  replace (e2 <=? 1024 - 53) with true by (symmetry; apply Z.leb_le; lia).
  destruct e2 as [|q|q]; [lia|lia|].
  cbn [Double.trunc_SF]. f_equal.
  rewrite Z.shiftr_div_pow2 by lia. apply Z.div_small. split; [lia|].
  apply (mul_lt_cancel (Zpos p) (2 ^ Zpos q) (2 ^ k2));
    [apply Z.pow_pos_nonneg; lia|].
  rewrite <- Z.pow_add_r by lia.
  replace (Zpos q + k2) with E1 by (unfold E1; lia). fold P. lia.
Qed.

Lemma bounded_facts (m : positive) (e : Z) :
  bounded 53 1024 m e = true ->
  Zpos m < 2 ^ 53 /\ -1074 <= e
  /\ Zpos (digits2_pos m) <= 53
  /\ (-1074 < e -> 2 ^ 52 <= Zpos m /\ Zpos (digits2_pos m) = 53).
Proof.
  unfold bounded, canonical_mantissa, fexp, emin. intros H.
  apply andb_prop in H. destruct H as [H _]. apply Z.eqb_eq in H.
  destruct (digits2_pos_bounds m) as [Hlo Hhi].
  assert (Hd : Zpos (digits2_pos m) <= 53) by lia.
  assert (Hm : Zpos m < 2 ^ 53).
  { apply Z.lt_le_trans with (1 := Hhi). apply Z.pow_le_mono_r; lia. }
  repeat split; try lia.
  - assert (E : Zpos (digits2_pos m) = 53) by lia. rewrite E in Hlo.
    exact Hlo.
Qed.

Lemma SFcompare_pos_Lt (mx my : positive) (ex ey : Z) :
  SFcompare (S754_finite false mx ex) (S754_finite false my ey) = Some Lt ->
  ex < ey \/ (ex = ey /\ Zpos mx < Zpos my).
Proof.
  cbn [SFcompare]. destruct (Z.compare_spec ex ey) as [E|E|E];
    intros H; try discriminate; [right|left; exact E].
  split; [exact E|]. injection H as H.
  exact H.
Qed.

Lemma new_location_round (d r q : Z) :
  0 < d -> 0 <= r < d ->
  shr_r (shr_record_of_loc q (new_location d r)) = true -> d <= 2 * r.
Proof.
  intros Hd Hr. unfold new_location, new_location_even, new_location_odd.
  destruct (Z.even d) eqn:Ev; destruct (Z.eqb_spec r 0) as [E|E];
    cbn [shr_record_of_loc shr_r]; try discriminate.
  - destruct (Z.compare_spec (2 * r) d); cbn [shr_record_of_loc shr_r];
      intros; try discriminate; lia.
  - destruct (Z.compare_spec (2 * r + 1) d); cbn [shr_record_of_loc shr_r];
      intros; try discriminate; lia.
Qed.

(** The quotient of two positive binary64 numbers, the smaller by the
    larger, has integer part zero. *)
Lemma SFdiv_below_one (mx my : positive) (ex ey : Z) :
  bounded 53 1024 mx ex = true -> bounded 53 1024 my ey = true ->
  SFcompare (S754_finite false mx ex) (S754_finite false my ey) = Some Lt ->
  Double.trunc_SF (SFdiv 53 1024 (S754_finite false mx ex) (S754_finite false my ey))
  = Some 0.
Proof.
  intros Hx Hy Hlt.
  destruct (bounded_facts mx ex Hx) as (Hmx & Hex & Hdx & _).
  destruct (bounded_facts my ey Hy) as (Hmy & Hey & Hdy & Hny).
  apply SFcompare_pos_Lt in Hlt.
  cbn [SFdiv xorb]. unfold SFdiv_core_binary. cbn [Zdigits2].
  set (dx := Zpos (digits2_pos mx)) in *.
  set (dy := Zpos (digits2_pos my)) in *.
  set (e' := Z.min (fexp 53 1024 (dx + ex - (dy + ey))) (ex - ey)).
  set (K := ey - ex).
  assert (HK : 0 <= K) by (unfold K; lia).
  assert (Hdig : dx + ex <= dy + ey).
  { destruct Hlt as [Hlt|[-> Hlt]].
    - destruct (Hny ltac:(lia)) as [_ ->]. lia.
    - assert (dx <= dy); [|lia].
      destruct (digits2_pos_bounds mx) as [Hlo _].
      destruct (digits2_pos_bounds my) as [_ Hhi].
      assert (H : 2 ^ (dx - 1) < 2 ^ dy) by (unfold dx, dy; lia).
      apply Z.pow_lt_mono_r_iff in H; lia. }
  assert (He' : e' <= -53 /\ e' <= ex - ey).
  { unfold e', fexp, emin. lia. }
  set (s := ex - ey - e').
  assert (Hs : 0 <= s) by (unfold s; lia).
  set (m' := match s with
             | 0 => Zpos mx
             | Zpos _ => Z.shiftl (Zpos mx) s
             | Zneg _ => 0
             end).
  assert (Hm' : m' = Zpos mx * 2 ^ s).
  { unfold m'. destruct s as [|p|p]; [rewrite Z.pow_0_r; lia| |lia].
    apply Z.shiftl_mul_pow2. lia. }
  pose proof (Z_div_mod m' (Zpos my) ltac:(lia)) as Hdiv.
  destruct (Z.div_eucl m' (Zpos my)) as [q r]. destruct Hdiv as [Hq Hr].
  assert (Hs2 : 0 < 2 ^ s) by (apply Z.pow_pos_nonneg; lia).
  assert (Hq0 : 0 <= q).
  { assert (0 <= m') by (rewrite Hm'; lia). nia. }
  assert (Hcore : 2 ^ 54 * Zpos mx < (2 ^ 54 - 1) * (2 ^ K * Zpos my)).
  { destruct Hlt as [Hlt|[E Hlt]].
    - destruct (Hny ltac:(lia)) as [Hlo _].
      assert (2 ^ 1 <= 2 ^ K) by (apply Z.pow_le_mono_r; unfold K; lia).
      assert (2 ^ 1 * 2 ^ 52 <= 2 ^ K * Zpos my)
        by (apply Z.mul_le_mono_nonneg; lia).
      lia.
    - replace K with 0 by (unfold K; lia). rewrite Z.pow_0_r. lia. }
  assert (Hpow : 2 ^ (- e') = 2 ^ s * 2 ^ K).
  { rewrite <- Z.pow_add_r by lia. f_equal. unfold s, K. lia. }
  apply (binary_round_aux_below_one q e' (new_location (Zpos my) r)
           m' (Zpos my)).
  - lia.
  - unfold within. rewrite shr_m_of_loc. split; [exact Hq0|]. split; [lia|].
    intros Hround.
    apply (new_location_round (Zpos my) r q ltac:(lia) Hr) in Hround. lia.
  - lia.
  - rewrite Hpow, Hm'. nia.
  - rewrite Hpow, Hm'. nia.
Qed.

Lemma Prim2SF_positive (x : float) :
  (0 <? x)%float = true ->
  Prim2SF x = S754_infinity false
  \/ exists m e, Prim2SF x = S754_finite false m e
                 /\ bounded 53 1024 m e = true.
Proof.
  intros H. rewrite ltb_spec in H. pose proof (Prim2SF_valid x) as V.
  change (Prim2SF 0) with (S754_zero false) in H.
  destruct (Prim2SF x) as [s|s| |s m e]; cbn in H; try discriminate.
  - destruct s; [discriminate|]. left; reflexivity.
  - destruct s; [discriminate|]. right. exists m, e. split; [reflexivity|].
    exact V.
Qed.

Lemma SF_div_below_one (x y : float) :
  (0 <? x)%float = true -> (x <? y)%float = true ->
  Double.trunc_SF (Prim2SF (x / y)) = Some 0.
Proof.
  intros H0 Hlt. rewrite div_spec. rewrite ltb_spec in Hlt.
  pose proof (Prim2SF_valid y) as Vy.
  destruct (Prim2SF_positive x H0) as [Ex|(mx & ex & Ex & Vx)];
    rewrite Ex in *.
  - destruct (Prim2SF y) as [s|[|]| |[|] m e]; discriminate.
  - destruct (Prim2SF y) as [s|[|]| |[|] my ey]; try discriminate.
    + reflexivity.
    + apply SFdiv_below_one; [exact Vx|exact Vy|].
      unfold SFltb in Hlt.
      destruct (SFcompare (S754_finite false mx ex)
                  (S754_finite false my ey)) as [[| |]|];
        try discriminate; reflexivity.
Qed.

Lemma div_by_zero (x : float) :
  (0 <? x)%float = true -> (x / 0)%float = infinity.
Proof.
  intros H0. apply Prim2SF_inj. rewrite div_spec.
  change (Prim2SF 0) with (S754_zero false).
  change (Prim2SF infinity) with (S754_infinity false).
  destruct (Prim2SF_positive x H0) as [->|(m & e & -> & _)]; reflexivity.
Qed.

Lemma trunc_floor_nonneg (x : spec_float) :
  Double.is_negative_SF x = false -> Double.trunc_SF x = Double.floor_SF x.
Proof.
  destruct x as [s|s| |s m e]; cbn [Double.is_negative_SF Double.trunc_SF
                                     Double.floor_SF]; try reflexivity.
  intros ->. f_equal. destruct e as [|p|p].
  - rewrite Z.shiftl_mul_pow2 by lia. reflexivity.
  - rewrite Z.shiftl_mul_pow2 by lia. reflexivity.
  - rewrite Z.shiftr_div_pow2 by lia. reflexivity.
Qed.

Lemma trunc_positive_sign (x : spec_float) (n : Z) :
  Double.trunc_SF x = Some n -> 1 <= n -> Double.is_negative_SF x = false.
Proof.
  destruct x as [s|s| |s m e]; cbn [Double.is_negative_SF Double.trunc_SF];
    try discriminate; try reflexivity.
  destruct s; [|reflexivity]. intros H Hn. injection H as H.
  assert (0 <= match e with
               | Zneg p => Z.shiftr (Zpos m) (Zpos p)
               | _ => Z.shiftl (Zpos m) e
               end); [|lia].
  destruct e; [apply Z.shiftl_nonneg|apply Z.shiftl_nonneg
               |apply Z.shiftr_nonneg]; lia.
Qed.

Lemma to_int_Done (x : float) (n : Z) :
  Double.to_int x = Done n -> Double.trunc_SF (Prim2SF x) = Some n.
Proof.
  unfold Double.to_int. destruct (Double.trunc_SF (Prim2SF x)) as [z|];
    [|discriminate].
  destruct (Int.in_range z); [|discriminate]. intros H. injection H as ->.
  reflexivity.
Qed.

(** ** The rounding error of binary64 division and multiplication

    Real-valued reading of [SpecFloat]'s rounding: the result of an
    operation is the exact result rounded to nearest at the exponent of the
    result. *)

Lemma pow2_pos (e : Z) : (0 < pow2 e)%R.
Proof. apply powerRZ_lt. lra. Qed.

Lemma pow2_add (a b : Z) : pow2 (a + b) = (pow2 a * pow2 b)%R.
Proof. apply powerRZ_add. lra. Qed.

Lemma pow2_IZR (k : Z) : 0 <= k -> pow2 k = IZR (2 ^ k).
Proof.
  intros Hk. unfold pow2. rewrite <- (Z2Nat.id k Hk) at 2.
  rewrite <- (Z2Nat.id k Hk) at 1. rewrite <- pow_powerRZ.
  rewrite <- pow_IZR. reflexivity.
Qed.

Lemma pow2_le (a b : Z) : a <= b -> (pow2 a <= pow2 b)%R.
Proof.
  intros H. replace b with (a + (b - a)) by lia. rewrite pow2_add.
  rewrite (pow2_IZR (b - a)) by lia.
  assert (1 <= 2 ^ (b - a))
    by (pose proof (Z.pow_pos_nonneg 2 (b - a)); lia).
  apply IZR_le in H0. pose proof (pow2_pos a). nra.
Qed.

Lemma shr_1_located (mrs : shr_record) (v : R) :
  located mrs v -> located (shr_1 mrs) (v / 2).
Proof.
  destruct mrs as [m r s]. unfold located. cbn [shr_m shr_r shr_s].
  intros (Hm & Hv & Hl).
  destruct m as [|p|p]; [| |lia].
  - cbn [shr_1 shr_m shr_r shr_s]. split; [lia|].
    destruct r, s; cbn [orb]; repeat split; lra.
  - destruct p as [p|p|]; cbn [shr_1 shr_m shr_r shr_s];
      try (rewrite (Pos2Z.inj_xI p) in * );
      try (rewrite (Pos2Z.inj_xO p) in * );
      try rewrite plus_IZR in *; try rewrite mult_IZR in *;
      (split; [lia|]); destruct r, s; cbn [orb]; repeat split; lra.
Qed.

Lemma iter_pos_located (p : positive) :
  forall (mrs : shr_record) (v : R),
    located mrs v -> located (SpecFloat.iter_pos shr_1 p mrs) (v / pow2 (Zpos p)).
Proof.
  induction p as [p IH|p IH|]; intros mrs v H; cbn [SpecFloat.iter_pos].
  - replace (v / pow2 (Zpos p~1))%R
      with (v / 2 / pow2 (Zpos p) / pow2 (Zpos p))%R.
    + apply IH, IH, shr_1_located, H.
    + rewrite (Pos2Z.inj_xI p).
      replace (2 * Zpos p + 1) with (1 + Zpos p + Zpos p) by lia.
      rewrite !pow2_add. change (pow2 1) with (2 * 1)%R.
      pose proof (pow2_pos (Zpos p)). field. lra.
  - replace (v / pow2 (Zpos p~0))%R
      with (v / pow2 (Zpos p) / pow2 (Zpos p))%R.
    + apply IH, IH, H.
    + rewrite (Pos2Z.inj_xO p).
      replace (2 * Zpos p) with (Zpos p + Zpos p) by lia.
      rewrite !pow2_add. pose proof (pow2_pos (Zpos p)). field. lra.
  - replace (v / pow2 1)%R with (v / 2)%R.
    + apply shr_1_located, H.
    + change (pow2 1) with (2 * 1)%R. field.
Qed.

Lemma shr_located (mrs : shr_record) (e n : Z) (v : R) :
  located mrs v ->
  exists k, 0 <= k /\ k = Z.max 0 n
    /\ snd (shr mrs e n) = e + k
    /\ located (fst (shr mrs e n)) (v / pow2 k).
Proof.
  intros H. destruct n as [|p|p]; cbn [shr fst snd].
  - exists 0. replace (v / pow2 0)%R with v by (cbn; field).
    repeat split; try lia; apply H.
  - exists (Zpos p). repeat split; try lia; apply (iter_pos_located p mrs v H).
  - exists 0. replace (v / pow2 0)%R with v by (cbn; field).
    repeat split; try lia; apply H.
Qed.

Lemma round_nearest_even_error (mrs : shr_record) (v : R) :
  located mrs v ->
  let m' := round_nearest_even (shr_m mrs) (loc_of_shr_record mrs) in
  (Rabs (IZR m' - v) <= / 2)%R
  /\ shr_m mrs <= m' <= shr_m mrs + 1
  /\ (shr_r mrs = false -> shr_s mrs = false -> m' = shr_m mrs).
Proof.
  destruct mrs as [m r s]. unfold located. cbn [shr_m shr_r shr_s].
  intros (Hm & Hv & Hl).
  destruct r, s; cbn [loc_of_shr_record round_nearest_even];
    try destruct (Z.even m); rewrite ?plus_IZR;
    (split; [apply Rabs_le; lra|]); (split; [lia|]);
    intros; try discriminate; reflexivity.
Qed.

Lemma Zdigits2_above (m : Z) : 0 <= m -> m < 2 ^ Zdigits2 m.
Proof.
  intros H. destruct m as [|p|p]; [cbn; lia| |lia].
  cbn [Zdigits2]. apply digits2_pos_bounds.
Qed.

Lemma Zdigits2_nonneg (m : Z) : 0 <= Zdigits2 m.
Proof. destruct m; cbn; lia. Qed.

(** What [binary_round_aux] returns, when finite: an integer [M] at the
    exponent [e1] the value is rounded at, within half a unit of the exact
    value [v * 2^e]. *)
Lemma binary_round_aux_error (m e : Z) (l : location) (v : R)
    (mr : positive) (er : Z) :
  located (shr_record_of_loc m l) v ->
  binary_round_aux 53 1024 false m e l = S754_finite false mr er ->
  exists (M e1 : Z),
    e1 = Z.max e (fexp 53 1024 (Zdigits2 m + e))
    /\ (Rabs (IZR M * pow2 e1 - v * pow2 e) <= pow2 e1 / 2)%R
    /\ ((M = Zpos mr /\ er = e1) \/ (M = 2 * Zpos mr /\ er = e1 + 1))
    /\ (l = loc_Exact -> fexp 53 1024 (Zdigits2 m + e) <= e -> M = m).
Proof.
  intros Hloc Hres.
  assert (Hm : 0 <= m /\ (v < IZR m + 1)%R).
  { destruct Hloc as (H0 & H1 & _). rewrite shr_m_of_loc in *. split; [lia|lra]. }
  unfold binary_round_aux, shr_fexp in Hres.
  set (n1 := fexp 53 1024 (Zdigits2 m + e) - e) in *.
  destruct (shr_located (shr_record_of_loc m l) e n1 v Hloc)
    as (k1 & Hk1 & Hk1' & He1 & Hl1).
  destruct (shr (shr_record_of_loc m l) e n1) as [mrs1 e1] eqn:Eshr.
  cbn [fst snd] in He1, Hl1.
  assert (Hemin : -1074 <= e1 /\ Zdigits2 m - 53 <= k1).
  { unfold n1, fexp, emin in *. lia. }
  destruct (round_nearest_even_error mrs1 _ Hl1) as (Herr & Hm1' & Hexact).
  cbv zeta in Herr, Hm1', Hexact.
  set (m1' := round_nearest_even (shr_m mrs1) (loc_of_shr_record mrs1)) in *.
  assert (Hm1 : 0 <= shr_m mrs1 < 2 ^ 53).
  { destruct Hl1 as (H0 & H1 & _). split; [exact H0|].
    apply lt_IZR. rewrite <- pow2_IZR by lia.
    apply Rle_lt_trans with (1 := proj1 H1).
    pose proof (Zdigits2_above m (proj1 Hm)) as Hd.
    pose proof (Zdigits2_nonneg m) as Hd0.
    assert (Hv : (v < pow2 (Zdigits2 m))%R).
    { rewrite pow2_IZR by lia.
      apply Rlt_le_trans with (1 := proj2 Hm).
      rewrite <- plus_IZR. apply IZR_le. lia. }
    pose proof (pow2_pos k1) as Hp.
    apply Rlt_le_trans with (pow2 (Zdigits2 m) / pow2 k1)%R.
    - apply Rmult_lt_compat_r; [apply Rinv_0_lt_compat; exact Hp|exact Hv].
    - replace (Zdigits2 m) with ((Zdigits2 m - k1) + k1) by lia.
      rewrite pow2_add. replace (pow2 (Zdigits2 m - k1) * pow2 k1 / pow2 k1)%R
        with (pow2 (Zdigits2 m - k1)) by (field; lra).
      apply pow2_le. lia. }
  assert (Hval : (v * pow2 e = v / pow2 k1 * pow2 e1)%R).
  { rewrite He1, pow2_add. pose proof (pow2_pos k1). field. lra. }
  assert (Hbound : (Rabs (IZR m1' * pow2 e1 - v * pow2 e) <= pow2 e1 / 2)%R).
  { rewrite Hval. rewrite <- Rmult_minus_distr_r, Rabs_mult.
    rewrite (Rabs_pos_eq (pow2 e1)) by (apply Rlt_le, pow2_pos).
    pose proof (pow2_pos e1). nra. }
  assert (Hex : l = loc_Exact -> fexp 53 1024 (Zdigits2 m + e) <= e ->
                m1' = m).
  { intros -> Hle. unfold shr in Eshr.
    assert (n1 <= 0) by (unfold n1; lia).
    destruct n1 as [|p|p]; try lia; injection Eshr as <- <-;
      unfold m1'; reflexivity. }
  set (n2 := fexp 53 1024 (Zdigits2 m1' + e1) - e1) in *.
  destruct (Z.eq_dec m1' (2 ^ 53)) as [E|E].
  - (* the mantissa overflowed to 2^53: one more shift, exact *)
    assert (Hn2 : n2 = 1).
    { unfold n2. rewrite E. change (Zdigits2 (2 ^ 53)) with 54.
      unfold fexp, emin. lia. }
    rewrite Hn2, E in Hres. cbn in Hres.
    destruct (e1 + 1 <=? 971); [|discriminate].
    injection Hres as <- <-.
    exists (2 ^ 53), e1. rewrite E in Hbound, Hex.
    unfold n1, fexp, emin in *.
    repeat split; try assumption; try lia.
  - assert (Hd : Zdigits2 m1' <= 53)
      by (apply Zdigits2_below; lia).
    assert (Hn2 : n2 <= 0) by (unfold n2, fexp, emin; lia).
    assert (Es : shr (shr_record_of_loc m1' loc_Exact) e1 n2
                 = (shr_record_of_loc m1' loc_Exact, e1)).
    { destruct n2; try lia; reflexivity. }
    rewrite Es in Hres. cbn [shr_record_of_loc shr_m] in Hres.
    destruct m1' as [|p|p]; try discriminate.
    destruct (e1 <=? 1024 - 53); [|discriminate].
    injection Hres as <- <-.
    exists (Zpos p), e1. unfold n1, fexp, emin in *.
    repeat split; try assumption; try lia.
Qed.

Lemma SF2R_finite_pos (m : positive) (e : Z) :
  SF2R (S754_finite false m e) = (IZR (Zpos m) * pow2 e)%R.
Proof. cbn [SF2R]. ring. Qed.

(** The same with the rounding unit of a normal result. *)
Lemma binary_round_aux_relative (m e : Z) (l : location) (v : R)
    (mr : positive) (er : Z) :
  located (shr_record_of_loc m l) v ->
  binary_round_aux 53 1024 false m e l = S754_finite false mr er ->
  2 ^ 52 <= Zpos mr ->
  (Rabs (SF2R (S754_finite false mr er) - v * pow2 e)
   <= SF2R (S754_finite false mr er) / IZR (2 ^ 53))%R.
Proof.
  intros Hloc Hres Hnorm.
  destruct (binary_round_aux_error m e l v mr er Hloc Hres)
    as (M & e1 & _ & Herr & Hrep & _).
  rewrite SF2R_finite_pos.
  assert (E : (IZR (Zpos mr) * pow2 er = IZR M * pow2 e1)%R
              /\ 2 ^ 52 <= M).
  { destruct Hrep as [[-> ->]|[-> ->]]; [split; [reflexivity|lia]|].
    split; [|lia]. rewrite mult_IZR, pow2_add.
    change (pow2 1) with (2 * 1)%R. ring. }
  destruct E as [E HM]. rewrite E.
  apply Rle_trans with (1 := Herr).
  apply IZR_le in HM. pose proof (pow2_pos e1) as Hp.
  change (2 ^ 53) with (2 * 2 ^ 52). rewrite mult_IZR.
  assert (H52 : (0 < IZR (2 ^ 52))%R) by (apply IZR_lt; reflexivity).
  apply Rmult_le_reg_r with (IZR 2 * IZR (2 ^ 52))%R; [lra|].
  replace (IZR M * pow2 e1 / (IZR 2 * IZR (2 ^ 52)) * (IZR 2 * IZR (2 ^ 52)))%R
    with (IZR M * pow2 e1)%R by (field; lra).
  replace (pow2 e1 / 2 * (IZR 2 * IZR (2 ^ 52)))%R
    with (IZR (2 ^ 52) * pow2 e1)%R by field.
  apply Rmult_le_compat_r; lra.
Qed.

Lemma new_location_located (d r q : Z) (v : R) :
  0 < d -> 0 <= r < d -> 0 <= q ->
  (v * IZR d = IZR q * IZR d + IZR r)%R ->
  located (shr_record_of_loc q (new_location d r)) v.
Proof.
  intros Hd Hr Hq Hv.
  assert (HD : (0 < IZR d)%R) by (apply IZR_lt; exact Hd).
  assert (Hr0 : (0 <= IZR r < IZR d)%R)
    by (split; [apply IZR_le|apply IZR_lt]; lia).
  assert (Hv1 : (IZR q <= v < IZR q + 1)%R) by (split; nra).
  assert (Hhalf : forall c, Z.compare (2 * r) d = c ->
            match c with
            | Lt => (v < IZR q + / 2)%R
            | Eq => v = (IZR q + / 2)%R
            | Gt => (IZR q + / 2 < v)%R
            end).
  { intros c <-. destruct (Z.compare_spec (2 * r) d) as [E|E|E].
    - apply (f_equal IZR) in E. rewrite mult_IZR in E. nra.
    - apply IZR_lt in E. rewrite mult_IZR in E. nra.
    - apply IZR_lt in E. rewrite mult_IZR in E. nra. }
  unfold located. rewrite shr_m_of_loc. split; [exact Hq|]. split; [exact Hv1|].
  unfold new_location, new_location_even, new_location_odd.
  destruct (Z.even d) eqn:Ev; destruct (Z.eqb_spec r 0) as [E0|E0].
  - subst r. cbn [shr_record_of_loc shr_m shr_r shr_s]. nra.
  - specialize (Hhalf _ eq_refl).
    assert (Hpos : (IZR q < v)%R).
    { assert (0 < r) by lia. apply IZR_lt in H. nra. }
    destruct (2 * r ?= d); cbn [shr_record_of_loc shr_m shr_r shr_s];
      try split; lra.
  - subst r. cbn [shr_record_of_loc shr_m shr_r shr_s]. nra.
  - assert (Hpos : (IZR q < v)%R).
    { assert (0 < r) by lia. apply IZR_lt in H. nra. }
    assert (Hodd : 2 * r <> d).
    { intros <-. rewrite Z.even_mul in Ev. discriminate. }
    specialize (Hhalf _ eq_refl).
    destruct (Z.compare_spec (2 * r + 1) d) as [E|E|E];
      cbn [shr_record_of_loc shr_m shr_r shr_s].
    + destruct (Z.compare_spec (2 * r) d); try lia. split; lra.
    + destruct (Z.compare_spec (2 * r) d); try lia. split; lra.
    + destruct (Z.compare_spec (2 * r) d); try lia. lra.
Qed.

Lemma pow2_sub (a b : Z) : pow2 (a - b) = (pow2 a / pow2 b)%R.
Proof.
  replace a with ((a - b) + b) at 2 by lia. rewrite pow2_add.
  pose proof (pow2_pos b). field. lra.
Qed.

Lemma SFdiv_relative (mx my mr : positive) (ex ey er : Z) :
  SFdiv 53 1024 (S754_finite false mx ex) (S754_finite false my ey)
  = S754_finite false mr er ->
  2 ^ 52 <= Zpos mr ->
  (Rabs (SF2R (S754_finite false mr er)
         - SF2R (S754_finite false mx ex) / SF2R (S754_finite false my ey))
   <= SF2R (S754_finite false mr er) / IZR (2 ^ 53))%R.
Proof.
  cbn [SFdiv xorb]. unfold SFdiv_core_binary. cbn [Zdigits2].
  set (e' := Z.min (fexp 53 1024 (Zpos (digits2_pos mx) + ex
                                  - (Zpos (digits2_pos my) + ey))) (ex - ey)).
  set (s := ex - ey - e').
  assert (Hs : 0 <= s) by (unfold s, e'; lia).
  set (m' := match s with
             | 0 => Zpos mx
             | Zpos _ => Z.shiftl (Zpos mx) s
             | Zneg _ => 0
             end).
  assert (Hm' : m' = Zpos mx * 2 ^ s).
  { unfold m'. destruct s as [|p|p]; [rewrite Z.pow_0_r; lia| |lia].
    apply Z.shiftl_mul_pow2. lia. }
  pose proof (Z_div_mod m' (Zpos my) ltac:(lia)) as Hdiv.
  destruct (Z.div_eucl m' (Zpos my)) as [q r]. destruct Hdiv as [Hq Hr].
  intros Hres Hnorm.
  assert (Hs2 : 0 < 2 ^ s) by (apply Z.pow_pos_nonneg; lia).
  assert (Hq0 : 0 <= q).
  { assert (0 <= m') by (rewrite Hm'; lia). nia. }
  assert (HY : (0 < IZR (Zpos my))%R) by (apply IZR_lt; lia).
  set (v := (IZR m' / IZR (Zpos my))%R).
  assert (Hloc : located (shr_record_of_loc q (new_location (Zpos my) r)) v).
  { apply new_location_located; try lia.
    unfold v. rewrite Hq, plus_IZR, mult_IZR. field. lra. }
  pose proof (binary_round_aux_relative q e' _ v mr er Hloc Hres Hnorm) as H.
  replace (SF2R (S754_finite false mx ex) / SF2R (S754_finite false my ey))%R
    with (v * pow2 e')%R; [exact H|].
  rewrite !SF2R_finite_pos. unfold v. rewrite Hm', mult_IZR.
  rewrite <- (pow2_IZR s) by lia. unfold s.
  rewrite !pow2_sub.
  pose proof (pow2_pos ex). pose proof (pow2_pos ey). pose proof (pow2_pos e').
  field. lra.
Qed.

Lemma SFmul_relative (mx my mr : positive) (ex ey er : Z) :
  SFmul 53 1024 (S754_finite false mx ex) (S754_finite false my ey)
  = S754_finite false mr er ->
  2 ^ 52 <= Zpos mr ->
  (Rabs (SF2R (S754_finite false mr er)
         - SF2R (S754_finite false mx ex) * SF2R (S754_finite false my ey))
   <= SF2R (S754_finite false mr er) / IZR (2 ^ 53))%R.
Proof.
  cbn [SFmul xorb]. intros Hres Hnorm.
  assert (Hloc : located (shr_record_of_loc (Zpos (mx * my)) loc_Exact)
                   (IZR (Zpos (mx * my)))).
  { unfold located. cbn [shr_record_of_loc shr_m shr_r shr_s].
    split; [lia|]. split; [lra|reflexivity]. }
  pose proof (binary_round_aux_relative _ _ _ _ mr er Hloc Hres Hnorm) as H.
  replace (SF2R (S754_finite false mx ex) * SF2R (S754_finite false my ey))%R
    with (IZR (Zpos (mx * my)) * pow2 (ex + ey))%R; [exact H|].
  rewrite !SF2R_finite_pos, Pos2Z.inj_mul, mult_IZR, pow2_add. ring.
Qed.

Lemma Prim2SF_normal (x : float) :
  (0x1p-1022 <=? x)%float = true -> (x <? infinity)%float = true ->
  exists m e, Prim2SF x = S754_finite false m e
              /\ SpecFloat.bounded 53 1024 m e = true /\ 2 ^ 52 <= Zpos m.
Proof.
  intros Hlo Hhi. rewrite leb_spec in Hlo. rewrite ltb_spec in Hhi.
  pose proof (Prim2SF_valid x) as V.
  change (Prim2SF 0x1p-1022) with (S754_finite false 4503599627370496 (-1074))
    in Hlo.
  change (Prim2SF infinity) with (S754_infinity false) in Hhi.
  destruct (Prim2SF x) as [s|s| |s m e]; try discriminate.
  - destruct s; discriminate.
  - destruct s; [discriminate|]. exists m, e. split; [reflexivity|].
    split; [exact V|].
    destruct (bounded_facts m e V) as (_ & He & _ & Hn).
    unfold SFleb in Hlo. cbn [SFcompare] in Hlo.
    destruct (Z.compare_spec (-1074) e) as [E|E|E]; try discriminate.
    + subst e.
      change (Pos.compare_cont Eq 4503599627370496 m)
        with (Z.compare (2 ^ 52) (Zpos m)) in Hlo.
      destruct (Z.compare_spec (2 ^ 52) (Zpos m)); try discriminate; lia.
    + apply Hn. exact E.
Qed.

Lemma Prim2SF_positive_finite (x : float) :
  (0 <? x)%float = true -> (x <? infinity)%float = true ->
  exists m e, Prim2SF x = S754_finite false m e.
Proof.
  intros H0 Hhi. rewrite ltb_spec in Hhi.
  change (Prim2SF infinity) with (S754_infinity false) in Hhi.
  destruct (Prim2SF_positive x H0) as [E|(m & e & E & _)].
  - rewrite E in Hhi. discriminate.
  - exists m, e. exact E.
Qed.

Lemma binary_round_aux_sign (s : bool) (m e : Z) (l : location)
    (mr : positive) (er : Z) :
  binary_round_aux 53 1024 s m e l = S754_finite false mr er -> s = false.
Proof.
  unfold binary_round_aux.
  destruct (shr_fexp 53 1024 m e l) as [mrs e1].
  destruct (shr_fexp 53 1024 _ e1 loc_Exact) as [mrs2 e2].
  destruct (shr_m mrs2); try discriminate.
  destruct (e2 <=? 1024 - 53); [|discriminate].
  intros H. injection H as H _. exact H.
Qed.

Lemma Rabs_bounds (a b : R) : (Rabs a <= b)%R -> (- b <= a <= b)%R.
Proof. unfold Rabs. destruct (Rcase_abs a); lra. Qed.

Lemma two_roundings (T X P u : R) :
  (0 < T)%R -> (0 < X)%R -> (0 < P)%R -> (0 < u <= / 1000)%R ->
  (Rabs (X - T) <= X * u)%R -> (Rabs (P - X) <= P * u)%R ->
  (Rabs (P - T) <= 4 * u * T)%R.
Proof.
  intros HT HX HP Hu H1 H2.
  apply Rabs_bounds in H1. apply Rabs_bounds in H2. apply Rabs_le.
  assert (HXu : (0 <= X * u)%R) by nra.
  assert (HPu : (0 <= P * u)%R) by nra.
  assert (Huu : (0 <= u * u <= u / 1000)%R) by nra.
  assert (HPuu : (P * u * u <= P * u / 1000)%R) by nra.
  assert (Hlow : (T >= P * (1 - 2 * u))%R) by nra.
  assert (Hhigh : (T <= P * (1 + 2 * u) + P * u * u)%R) by nra.
  assert (HP34 : (P * 3 <= 4 * T)%R) by nra.
  split; nra.
Qed.

(** Dividing by a double and multiplying by it again gives back the
    dividend up to a relative error of [2^-51], in the normal range. *)
Lemma div_then_mul_error (t f : float) :
  (0 <? t)%float = true -> (t <? infinity)%float = true ->
  (0x1p-1022 <=? t / f)%float = true -> (t / f <? infinity)%float = true ->
  (0x1p-1022 <=? t / f * f)%float = true ->
  (t / f * f <? infinity)%float = true ->
  (Rabs (B2R (t / f * f) - B2R t) <= B2R t / IZR (2 ^ 51))%R.
Proof.
  intros Ht0 Hti Hd0 Hdi Hp0 Hpi.
  destruct (Prim2SF_positive_finite t Ht0 Hti) as (mt & et & Et).
  destruct (Prim2SF_normal _ Hd0 Hdi) as (md & ed & Ed & _ & Nd).
  destruct (Prim2SF_normal _ Hp0 Hpi) as (mp & ep & Ep & _ & Np).
  pose proof Ed as Ediv. rewrite div_spec, Et in Ediv.
  unfold SF64div, FloatOps.prec, FloatOps.emax in Ediv.
  destruct (Prim2SF f) as [sf|sf| |sf mf ef] eqn:Ef; try discriminate.
  assert (sf = false).
  { cbn [SFdiv] in Ediv.
    destruct (SFdiv_core_binary 53 1024 (Zpos mt) et (Zpos mf) ef)
      as [[mz ez] lz].
    apply binary_round_aux_sign in Ediv. destruct sf; [discriminate|].
    reflexivity. }
  subst sf.
  pose proof Ep as Emul. rewrite mul_spec, Ed, Ef in Emul.
  unfold SF64mul, FloatOps.prec, FloatOps.emax in Emul.
  pose proof (SFdiv_relative mt mf md et ef ed Ediv Nd) as H1.
  pose proof (SFmul_relative md mf mp ed ef ep Emul Np) as H2.
  unfold B2R. rewrite Ep, Et.
  set (T := SF2R (S754_finite false mt et)) in *.
  set (F := SF2R (S754_finite false mf ef)) in *.
  set (D := SF2R (S754_finite false md ed)) in *.
  set (P := SF2R (S754_finite false mp ep)) in *.
  assert (Hpos : forall m e, (0 < SF2R (S754_finite false m e))%R).
  { intros m e. rewrite SF2R_finite_pos.
    apply Rmult_lt_0_compat; [apply IZR_lt; lia|apply pow2_pos]. }
  pose proof (Hpos mt et) as HT. pose proof (Hpos mf ef) as HF.
  pose proof (Hpos md ed) as HD. pose proof (Hpos mp ep) as HP.
  fold T in HT. fold F in HF. fold D in HD. fold P in HP.
  assert (H1' : (Rabs (D * F - T) <= D * F * / IZR (2 ^ 53))%R).
  { replace (D * F - T)%R with ((D - T / F) * F)%R by (field; lra).
    rewrite Rabs_mult, (Rabs_pos_eq F) by lra.
    replace (D * F * / IZR (2 ^ 53))%R with (D / IZR (2 ^ 53) * F)%R
      by (unfold Rdiv; ring).
    apply Rmult_le_compat_r; [lra|exact H1]. }
  pose proof (two_roundings T (D * F) P (/ IZR (2 ^ 53)) HT
                ltac:(nra) HP) as H.
  replace (T / IZR (2 ^ 51))%R with (4 * / IZR (2 ^ 53) * T)%R.
  - apply H; [|exact H1'|exact H2].
    change (2 ^ 53) with 9007199254740992. lra.
  - change (2 ^ 53) with (4 * 2 ^ 51). rewrite mult_IZR.
    assert (0 < IZR (2 ^ 51))%R by (apply IZR_lt; reflexivity).
    field. lra.
Qed.

(** ** Particle migration *)

Module MigrationFacts.
Import Migration.











(** [migrate] is defined when the partition gives every particle an owner
    among the processes. *)
Lemma addressed_defined (g : Geometry) (part : Partition) (P : nat)
    (ps : list Particle) :
  (forall p, In p ps ->
     exists d, owner g part (position p) = Some d /\ (d < P)%nat) ->
  exists msgs, addressed g part P ps = Some msgs.
Proof.
  induction ps as [|p ps IH]; intros H; [exists []; reflexivity|].
  destruct (H p (or_introl eq_refl)) as (d & Hd & HP).
  destruct IH as [ms Hms]; [intros q Hq; apply H; right; exact Hq|].
  exists ((d, p) :: ms). cbn [addressed]. unfold address. rewrite Hd, Hms.
  destruct (Nat.ltb_spec d P); [reflexivity|lia].
Qed.

(** One step of the driver seen on all processes: Integrator, workload,
    new partition, migration with the minimum halo width. *)
Example two_processes :
  let g := mkGeometry (0, 0, 0)%float 1%float in
  let part := [mkBox (0, 0, 0) (4, 8, 8); mkBox (4, 0, 0) (8, 8, 8)] in
  let v := (0, 0, 0)%float in
  let a := mkParticle (1.5, 1, 1)%float v 1%float 2%float in
  let b := mkParticle (5.5, 1, 1)%float v 1%float 2%float in
  let c := mkParticle (2.5, 3, 3)%float v 1%float 2%float in
  let d := mkParticle (6.5, 3, 3)%float v 1%float 2%float in
  migrate g part 3 [[a; b]; [c; d]] = Some [[a; c]; [d; b]].
Proof. reflexivity. Qed.

End MigrationFacts.

(** ** Runs of [solve], case by case *)

Section Runs.
Context {C : Collaborators}.

Lemma same_settings_refl (s : Solver) : same_settings s s.
Proof. repeat split. Qed.

Lemma run_state_settings (k : nat) (dt : float) (st : Solver * float) :
  same_settings (fst st) (fst (run_state k dt st)).
Proof.
  revert st. induction k as [|k IH]; intros st; [apply same_settings_refl|].
  cbn [run_state]. specialize (IH (body_next dt st)).
  cbn [body_next fst] in IH. exact IH.
Qed.

Lemma run_state_time (k : nat) (dt : float) (st : Solver * float) :
  snd (run_state k dt st) = accumulated k dt (snd st).
Proof.
  revert st. induction k as [|k IH]; intros st; [reflexivity|].
  cbn [run_state accumulated]. rewrite IH. reflexivity.
Qed.

Lemma solve_undefined_conversion (s : Solver) (t_final : float)
    (write_freq : Z) :
  num_step_of s t_final = Undefined FloatToIntOutOfRange ->
  solve s t_final write_freq
  = (Undefined FloatToIntOutOfRange,
     at_phase BeforeLoop (snapshot_calls s 0 0%float)).
Proof.
  intros H. unfold solve. rewrite write_snapshot_eq, H. cbn [lift bind].
  rewrite app_nil_r. reflexivity.
Qed.

Lemma num_step_of_cases (s : Solver) (t_final : float) :
  num_step_of s t_final = Undefined FloatToIntOutOfRange
  \/ exists n, num_step_of s t_final = Done n
               /\ Int.min_int <= n <= Int.max_int.
Proof.
  unfold num_step_of, Double.to_int.
  destruct (Double.trunc_SF _) as [z|]; [|left; reflexivity].
  destruct (Int.in_range z) eqn:E; [|left; reflexivity].
  right. exists z. split; [reflexivity|].
  unfold Int.in_range in E. apply andb_prop in E. destruct E as [E1 E2].
  apply Z.leb_le in E1. apply Z.leb_le in E2. lia.
Qed.

Lemma solve_no_step (s : Solver) (t_final : float) (write_freq n : Z) :
  num_step_of s t_final = Done n -> n <= 0 ->
  solve s t_final write_freq
  = (Done (mkExit s n (delta_t_of t_final n) 0%float),
     at_phase BeforeLoop (snapshot_calls s 0 0%float)).
Proof.
  intros Hn Hle. unfold solve. rewrite write_snapshot_eq, Hn.
  cbn [lift bind].
  replace (Z.to_nat n) with 0%nat by lia. cbn [for_loop].
  destruct (Z.ltb_spec 0 n) as [H|_]; [lia|].
  cbn [ret bind fst snd]. rewrite !app_nil_r. reflexivity.
Qed.

Lemma loop_body_write_freq_zero (num_step : Z) (delta_t : float) (t : Z)
    (st : Solver * float) :
  loop_body 0 num_step delta_t t st
  = (Undefined RemainderByZero,
     if _rank (fst st) =? 0 then []
     else at_phase (Iteration t) (core_calls delta_t (fst st))).
Proof.
  destruct st as [s time].
  unfold loop_body, core_calls, stepped, lb_result, int_rem.
  cbv zeta. cbn [fst snd Z.eqb lift bind].
  destruct (createBalancedGlobalGrid (_lb s) (globalMesh (_mesh s))
              (_partitioner s) _) as [lb1 g].
  destruct (_rank s =? 0); reflexivity.
Qed.

Lemma solve_write_freq_zero (s : Solver) (t_final : float) (n : Z) :
  num_step_of s t_final = Done n -> 1 <= n ->
  solve s t_final 0
  = (Undefined RemainderByZero,
     at_phase BeforeLoop (snapshot_calls s 0 0%float)
     ++ (if _rank s =? 0 then []
         else at_phase (Iteration 0)
                (core_calls (delta_t_of t_final n) s))).
Proof.
  intros Hn H1. unfold solve. rewrite write_snapshot_eq, Hn.
  cbn [lift bind].
  destruct (Z.to_nat n) as [|k] eqn:E; [lia|].
  cbn [for_loop]. destruct (Z.ltb_spec 0 n) as [_|H]; [|lia].
  rewrite loop_body_write_freq_zero. cbn [bind fst]. reflexivity.
Qed.

End Runs.

Section Readings.
Context {C : Collaborators}.

Lemma Zseq_snoc (t : Z) (k : nat) :
  Zseq t (S k) = Zseq t k ++ [t + Z.of_nat k].
Proof.
  revert t. induction k as [|k IH]; intros t.
  - cbn. rewrite Z.add_0_r. reflexivity.
  - cbn [Zseq app] in *. rewrite IH. cbn [app].
    replace (t + 1 + Z.of_nat k) with (t + Z.of_nat (S k)) by lia.
    reflexivity.
Qed.

Lemma snapshot_stamps_app (tr1 tr2 : trace) :
  snapshot_stamps (tr1 ++ tr2) = snapshot_stamps tr1 ++ snapshot_stamps tr2.
Proof. apply flat_map_app. Qed.

Lemma progress_notices_app (tr1 tr2 : trace) :
  progress_notices (tr1 ++ tr2)
  = progress_notices tr1 ++ progress_notices tr2.
Proof. unfold progress_notices. rewrite map_app, filter_app. reflexivity. Qed.

Lemma body_calls_stamps (wf n : Z) (dt : float) (t : Z)
    (st : Solver * float) :
  snapshot_stamps (at_phase (Iteration t) (body_calls wf n dt t st))
  = if Z.rem t wf =? 0 then [(t + 1, snd st)] else [].
Proof.
  unfold body_calls, progress_calls, due_snapshot, core_calls, snapshot_calls,
    at_phase, snapshot_stamps.
  rewrite !map_app, !flat_map_app.
  destruct (_ && _); destruct (Z.rem t wf =? 0); reflexivity.
Qed.

Lemma body_calls_progress (wf n : Z) (dt : float) (t : Z)
    (st : Solver * float) :
  progress_notices (at_phase (Iteration t) (body_calls wf n dt t st))
  = if (_rank (fst st) =? 0) && (Z.rem t wf =? 0)
    then [printf_Step (t + 1) n] else [].
Proof.
  unfold body_calls, progress_calls, due_snapshot, core_calls, snapshot_calls,
    at_phase, progress_notices.
  rewrite !map_app, !filter_app.
  destruct (_rank (fst st) =? 0); destruct (Z.rem t wf =? 0); reflexivity.
Qed.

Lemma run_trace_stamps (k : nat) (wf n : Z) (dt : float) (t : Z)
    (st : Solver * float) :
  snapshot_stamps (run_trace k wf n dt t st)
  = map (fun u => (u + 1, accumulated (Z.to_nat (u - t)) dt (snd st)))
      (filter (fun u => Z.rem u wf =? 0) (Zseq t k)).
Proof.
  revert t st. induction k as [|k IH]; intros t st; [reflexivity|].
  cbn [run_trace Zseq filter].
  rewrite snapshot_stamps_app, body_calls_stamps, IH.
  assert (E : map (fun u => (u + 1,
                     accumulated (Z.to_nat (u - (t + 1))) dt
                       (snd (body_next dt st))))
                (filter (fun u => Z.rem u wf =? 0) (Zseq (t + 1) k))
              = map (fun u => (u + 1,
                       accumulated (Z.to_nat (u - t)) dt (snd st)))
                  (filter (fun u => Z.rem u wf =? 0) (Zseq (t + 1) k))).
  { apply map_ext_in. intros u Hu. apply filter_In in Hu.
    destruct Hu as [Hu _]. apply Zseq_In in Hu.
    replace (Z.to_nat (u - t)) with (S (Z.to_nat (u - (t + 1)))) by lia.
    reflexivity. }
  rewrite E. destruct (Z.rem t wf =? 0); [|reflexivity].
  cbn [map app]. rewrite Z.sub_diag. reflexivity.
Qed.

Lemma run_trace_progress (k : nat) (wf n : Z) (dt : float) (t : Z)
    (st : Solver * float) :
  progress_notices (run_trace k wf n dt t st)
  = if _rank (fst st) =? 0
    then map (fun u => printf_Step (u + 1) n)
           (filter (fun u => Z.rem u wf =? 0) (Zseq t k))
    else [].
Proof.
  revert t st. induction k as [|k IH]; intros t st.
  - cbn. destruct (_rank (fst st) =? 0); reflexivity.
  - cbn [run_trace Zseq filter].
    rewrite progress_notices_app, body_calls_progress, IH.
    cbn [body_next fst next_solver _rank].
    destruct (_rank (fst st) =? 0); [|reflexivity].
    cbn [andb]. destruct (Z.rem t wf =? 0); reflexivity.
Qed.

(** The labels [u + 1] of the iterations kept by any test, in loop order. *)
Lemma labels_sorted (f : Z -> bool) (t : Z) (k : nat) :
  StronglySorted Z.lt (map (fun u => u + 1) (filter f (Zseq t k)))
  /\ Forall (fun i => t + 1 <= i <= t + Z.of_nat k)
       (map (fun u => u + 1) (filter f (Zseq t k))).
Proof.
  revert t. induction k as [|k IH]; intros t.
  - split; constructor.
  - cbn [Zseq filter]. destruct (IH (t + 1)) as [Hs Hb].
    assert (Hb' : Forall (fun i => t + 1 <= i <= t + Z.of_nat (S k))
                    (map (fun u => u + 1) (filter f (Zseq (t + 1) k)))).
    { revert Hb. apply Forall_impl. intros i. lia. }
    destruct (f t); [|split; assumption].
    cbn [map]. split.
    + constructor; [exact Hs|]. revert Hb. apply Forall_impl. intros i. lia.
    + constructor; [lia|exact Hb'].
Qed.

Lemma div_step (k w : Z) :
  0 <= k -> 0 < w ->
  (k + 1 + w - 1) / w
  = (k + w - 1) / w + (if Z.rem k w =? 0 then 1 else 0).
Proof.
  intros Hk Hw. rewrite Z.rem_mod_nonneg by lia.
  pose proof (Z.div_mod k w ltac:(lia)) as E.
  pose proof (Z.mod_pos_bound k w Hw) as B.
  destruct (Z.eqb_spec (k mod w) 0) as [R|R].
  - rewrite R in E.
    rewrite <- (Z.div_unique (k + 1 + w - 1) w (k / w + 1) 0) by lia.
    rewrite <- (Z.div_unique (k + w - 1) w (k / w) (w - 1)) by lia.
    reflexivity.
  - rewrite <- (Z.div_unique (k + 1 + w - 1) w (k / w + 1) (k mod w)) by lia.
    rewrite <- (Z.div_unique (k + w - 1) w (k / w + 1) (k mod w - 1)) by lia.
    lia.
Qed.

Lemma count_due_pos (w : Z) (k : nat) :
  0 < w ->
  List.length (filter (fun u => Z.rem u w =? 0) (Zseq 0 k))
  = Z.to_nat ((Z.of_nat k + w - 1) / w).
Proof.
  intros Hw. induction k as [|k IH].
  - cbn [Zseq filter List.length]. rewrite Z.div_small by lia. reflexivity.
  - rewrite Zseq_snoc, filter_app, length_app, IH. cbn [filter].
    replace (Z.of_nat (S k) + w - 1) with (Z.of_nat k + 1 + w - 1) by lia.
    rewrite (div_step (Z.of_nat k) w) by lia.
    assert (0 <= (Z.of_nat k + w - 1) / w) by (apply Z.div_pos; lia).
    rewrite Z.add_0_l.
    destruct (Z.rem (Z.of_nat k) w =? 0); cbn [List.length]; lia.
Qed.

Lemma count_due (write_freq n : Z) :
  write_freq <> 0 ->
  List.length (due write_freq n)
  = Z.to_nat ((Z.max n 0 + Z.abs write_freq - 1) / Z.abs write_freq).
Proof.
  intros Hw. unfold due.
  rewrite (filter_ext (fun t => Z.rem t write_freq =? 0)
             (fun t => Z.rem t (Z.abs write_freq) =? 0)).
  - rewrite count_due_pos by lia. f_equal. f_equal. lia.
  - intros t. rewrite Z.rem_abs_r by exact Hw. reflexivity.
Qed.

Lemma solve_stamps (s : Solver) (t_final : float) (write_freq : Z) :
  snapshot_stamps (snd (solve s t_final write_freq))
  = (0, 0%float)
    :: match num_step_of s t_final with
       | Done n =>
           if write_freq =? 0 then []
           else map (fun t => (t + 1,
                       accumulated (Z.to_nat t) (delta_t_of t_final n)
                         0%float))
                  (due write_freq n)
       | _ => []
       end.
Proof.
  destruct (num_step_of_cases s t_final) as [E|(n & E & _)].
  - rewrite (solve_undefined_conversion s t_final write_freq E), E.
    reflexivity.
  - rewrite E. destruct (Z.eqb_spec write_freq 0) as [->|Hw].
    + destruct (Z.le_gt_cases n 0) as [Hn|Hn].
      * rewrite (solve_no_step s t_final 0 n E Hn). reflexivity.
      * rewrite (solve_write_freq_zero s t_final n E) by lia.
        cbn [snd]. rewrite snapshot_stamps_app.
        destruct (_rank s =? 0); reflexivity.
    + rewrite (solve_trace_eq s t_final write_freq n Hw E).
      rewrite snapshot_stamps_app, run_trace_stamps. cbn [snd].
      unfold due. cbn [at_phase map snapshot_calls snapshot_stamps flat_map
                         snd app].
      f_equal. apply map_ext. intros u. rewrite Z.sub_0_r. reflexivity.
Qed.

Lemma solve_exit_settings (s : Solver) (t_final : float) (write_freq : Z)
    (ex : SolveExit) (tr : trace) :
  solve s t_final write_freq = (Done ex, tr) ->
  same_settings s (exit_solver ex).
Proof.
  intros H. destruct (num_step_of_cases s t_final) as [E|(n & E & _)].
  - rewrite (solve_undefined_conversion s t_final write_freq E) in H.
    discriminate.
  - destruct (Z.eqb_spec write_freq 0) as [->|Hw].
    + destruct (Z.le_gt_cases n 0) as [Hn|Hn].
      * rewrite (solve_no_step s t_final 0 n E Hn) in H.
        injection H as <- _. apply same_settings_refl.
      * rewrite (solve_write_freq_zero s t_final n E) in H by lia.
        discriminate.
    + rewrite (solve_eq s t_final write_freq n Hw E) in H.
      injection H as <- _. cbn [exit_solver].
      apply (run_state_settings (Z.to_nat n) (delta_t_of t_final n)
               (s, 0%float)).
Qed.

Lemma migrations_app (tr1 tr2 : trace) :
  migrations (tr1 ++ tr2) = migrations tr1 ++ migrations tr2.
Proof. apply filter_app. Qed.

Lemma body_calls_migrations (wf n : Z) (dt : float) (t : Z)
    (st : Solver * float) :
  migrations (at_phase (Iteration t) (body_calls wf n dt t st))
  = [(Iteration t, pm_communicateParticles (_halo_min (fst st)))].
Proof.
  unfold body_calls, progress_calls, due_snapshot, core_calls, snapshot_calls,
    at_phase, migrations.
  rewrite !map_app, !filter_app.
  destruct (_ && _); destruct (Z.rem t wf =? 0); reflexivity.
Qed.

Lemma run_trace_migrations (k : nat) (wf n : Z) (dt : float) (t : Z)
    (st : Solver * float) :
  migrations (run_trace k wf n dt t st)
  = map (fun u => (Iteration u, pm_communicateParticles (_halo_min (fst st))))
      (Zseq t k).
Proof.
  revert t st. induction k as [|k IH]; intros t st; [reflexivity|].
  cbn [run_trace Zseq map].
  rewrite migrations_app, body_calls_migrations, IH. reflexivity.
Qed.

Lemma step_events_app (tr1 tr2 : trace) :
  step_events (tr1 ++ tr2) = step_events tr1 ++ step_events tr2.
Proof. apply filter_app. Qed.

Lemma body_calls_step_events (wf n : Z) (dt : float) (t : Z)
    (st : Solver * float) :
  step_events (at_phase (Iteration t) (body_calls wf n dt t st))
  = [(Iteration t,
      TimeIntegrator_step (execution_space (fst st)) dt (_gravity (fst st))
        (_bc (fst st)))].
Proof.
  unfold body_calls, progress_calls, due_snapshot, core_calls, snapshot_calls,
    at_phase, step_events.
  rewrite !map_app, !filter_app.
  destruct (_ && _); destruct (Z.rem t wf =? 0); reflexivity.
Qed.

Lemma run_trace_step_events (k : nat) (wf n : Z) (dt : float) (t : Z)
    (st : Solver * float) :
  step_events (run_trace k wf n dt t st)
  = map (fun u => (Iteration u,
                   TimeIntegrator_step (execution_space (fst st)) dt
                     (_gravity (fst st)) (_bc (fst st))))
      (Zseq t k).
Proof.
  revert t st. induction k as [|k IH]; intros t st; [reflexivity|].
  cbn [run_trace Zseq map].
  rewrite step_events_app, body_calls_step_events, IH. reflexivity.
Qed.

End Readings.

(** ** Quotients that have no step count, or none above zero *)

Lemma eqb_zero (x : float) :
  (x =? 0)%float = true -> exists sgn, Prim2SF x = S754_zero sgn.
Proof.
  rewrite eqb_spec. change (Prim2SF 0) with (S754_zero false).
  destruct (Prim2SF x) as [s|s| |s m e]; try discriminate.
  - intros _. exists s. reflexivity.
  - destruct s; discriminate.
  - destruct s; discriminate.
Qed.

Lemma SFcompare_refl (s : bool) (m : positive) (e : Z) :
  SFcompare (S754_finite s m e) (S754_finite s m e) = Some Eq.
Proof.
  cbn [SFcompare]. destruct s; rewrite Z.compare_refl;
    rewrite Pos.compare_cont_refl; reflexivity.
Qed.

Lemma eqb_self_false (x : float) :
  (x =? x)%float = false -> Prim2SF x = S754_nan.
Proof.
  rewrite eqb_spec. unfold SFeqb.
  destruct (Prim2SF x) as [s|s| |s m e]; try reflexivity.
  - discriminate.
  - destruct s; discriminate.
  - rewrite SFcompare_refl. discriminate.
Qed.

Lemma div_zero_divisor (x y : float) :
  (y =? 0)%float = true -> Double.trunc_SF (Prim2SF (x / y)) = None.
Proof.
  intros H. destruct (eqb_zero y H) as [sgn E].
  rewrite div_spec, E. destruct (Prim2SF x); reflexivity.
Qed.

Lemma div_nan (x y : float) :
  (x =? x)%float = false \/ (y =? y)%float = false ->
  Double.trunc_SF (Prim2SF (x / y)) = None.
Proof.
  intros [H|H]; apply eqb_self_false in H; rewrite div_spec, H.
  - reflexivity.
  - destruct (Prim2SF x); reflexivity.
Qed.

Lemma to_int_None (x : float) :
  Double.trunc_SF (Prim2SF x) = None ->
  Double.to_int x = Undefined FloatToIntOutOfRange.
Proof. unfold Double.to_int. intros ->. reflexivity. Qed.

Lemma binary_round_aux_negative (m e : Z) (l : location) (n : Z) :
  Double.trunc_SF (binary_round_aux 53 1024 true m e l) = Some n -> n <= 0.
Proof.
  unfold binary_round_aux.
  destruct (shr_fexp 53 1024 m e l) as [mrs e1].
  destruct (shr_fexp 53 1024 _ e1 loc_Exact) as [mrs2 e2].
  destruct (shr_m mrs2) as [|p|p]; cbn [Double.trunc_SF].
  - intros H. injection H as <-. lia.
  - destruct (e2 <=? 1024 - 53); [|discriminate].
    cbn [Double.trunc_SF]. intros H. injection H as <-.
    assert (0 <= match e2 with
                 | Zneg q => Z.shiftr (Zpos p) (Zpos q)
                 | _ => Z.shiftl (Zpos p) e2
                 end); [|lia].
    destruct e2; [apply Z.shiftl_nonneg|apply Z.shiftl_nonneg
                  |apply Z.shiftr_nonneg]; lia.
  - discriminate.
Qed.

Lemma Prim2SF_nonpositive (x : float) :
  (x <=? 0)%float = true ->
  (exists sgn, Prim2SF x = S754_zero sgn)
  \/ Prim2SF x = S754_infinity true
  \/ exists m e, Prim2SF x = S754_finite true m e.
Proof.
  rewrite leb_spec. change (Prim2SF 0) with (S754_zero false).
  destruct (Prim2SF x) as [s|s| |s m e]; try discriminate.
  - intros _. left. exists s. reflexivity.
  - destruct s; [|discriminate]. intros _. right. left. reflexivity.
  - destruct s; [|discriminate]. intros _. right. right. exists m, e.
    reflexivity.
Qed.

Lemma Prim2SF_nonnegative (x : float) :
  (0 <=? x)%float = true ->
  (exists sgn, Prim2SF x = S754_zero sgn)
  \/ Prim2SF x = S754_infinity false
  \/ exists m e, Prim2SF x = S754_finite false m e.
Proof.
  rewrite leb_spec. change (Prim2SF 0) with (S754_zero false).
  destruct (Prim2SF x) as [s|s| |s m e]; try discriminate.
  - intros _. left. exists s. reflexivity.
  - destruct s; [discriminate|]. intros _. right. left. reflexivity.
  - destruct s; [discriminate|]. intros _. right. right. exists m, e.
    reflexivity.
Qed.

Lemma Prim2SF_negative (x : float) :
  (x <? 0)%float = true ->
  Prim2SF x = S754_infinity true
  \/ exists m e, Prim2SF x = S754_finite true m e.
Proof.
  rewrite ltb_spec. change (Prim2SF 0) with (S754_zero false).
  destruct (Prim2SF x) as [s|s| |s m e]; try discriminate.
  - destruct s; [|discriminate]. intros _. left. reflexivity.
  - destruct s; [|discriminate]. intros _. right. exists m, e. reflexivity.
Qed.

Lemma div_opposite_signs (x y : float) (n : Z) :
  opposite_signs x y = true ->
  Double.trunc_SF (Prim2SF (x / y)) = Some n -> n <= 0.
Proof.
  unfold opposite_signs. intros H. apply orb_prop in H. rewrite div_spec.
  destruct H as [H|H]; apply andb_prop in H; destruct H as [Hx Hy].
  - destruct (Prim2SF_positive y Hy) as [Ey|(my & ey & Ey & _)]; rewrite Ey;
      destruct (Prim2SF_nonpositive x Hx) as [[sgn Ex]|[Ex|(mx & ex & Ex)]];
      rewrite Ex; cbn [SFdiv Double.trunc_SF]; try discriminate;
      try (intros H; injection H as <-; lia).
    unfold SF64div, SFdiv.
    destruct (SFdiv_core_binary _ _ _ _ _ _) as [[mz ez] lz].
    cbn [xorb]. apply binary_round_aux_negative.
  - destruct (Prim2SF_negative y Hy) as [Ey|(my & ey & Ey)]; rewrite Ey;
      destruct (Prim2SF_nonnegative x Hx) as [[sgn Ex]|[Ex|(mx & ex & Ex)]];
      rewrite Ex; cbn [SFdiv Double.trunc_SF]; try discriminate;
      try (intros H; injection H as <-; lia).
    unfold SF64div, SFdiv.
    destruct (SFdiv_core_binary _ _ _ _ _ _) as [[mz ez] lz].
    cbn [xorb]. apply binary_round_aux_negative.
Qed.

Lemma div_of_zero (x y : float) :
  (x =? 0)%float = true -> opposite_signs x y = true ->
  Double.trunc_SF (Prim2SF (x / y)) = Some 0.
Proof.
  intros Hx H. rewrite div_spec. destruct (eqb_zero x Hx) as [sgn ->].
  unfold opposite_signs in H. apply orb_prop in H.
  destruct H as [H|H]; apply andb_prop in H; destruct H as [_ Hy].
  - destruct (Prim2SF_positive y Hy) as [->|(my & ey & -> & _)]; reflexivity.
  - destruct (Prim2SF_negative y Hy) as [->|(my & ey & ->)]; reflexivity.
Qed.

(** A double that is at least [2^31] has an integer part beyond [int]. *)
Lemma trunc_above_int (x : float) :
  (2147483648 <=? x)%float = true ->
  Double.to_int x = Undefined FloatToIntOutOfRange.
Proof.
  rewrite leb_spec. pose proof (Prim2SF_valid x) as V.
  change (Prim2SF 2147483648)
    with (S754_finite false 4503599627370496 (-21)).
  unfold Double.to_int.
  destruct (Prim2SF x) as [s|s| |s m e]; try discriminate;
    try reflexivity.
  destruct s; [discriminate|].
  unfold SFleb. cbn [SFcompare Double.trunc_SF]. intros H.
  destruct (bounded_facts m e V) as (_ & _ & _ & Hn).
  assert (Hm : 2 ^ 52 <= Zpos m).
  { destruct (Z.compare_spec (-21) e) as [E|E|E]; try discriminate.
    - subst e.
      change (Pos.compare_cont Eq 4503599627370496 m)
        with (Z.compare (2 ^ 52) (Zpos m)) in H.
      destruct (Z.compare_spec (2 ^ 52) (Zpos m)); try discriminate; lia.
    - apply Hn. lia. }
  assert (He : -21 <= e).
  { destruct (Z.compare_spec (-21) e) as [E|E|E]; try discriminate; lia. }
  assert (Hz : 2 ^ 31 <= match e with
                         | Zneg p => Z.shiftr (Zpos m) (Zpos p)
                         | _ => Z.shiftl (Zpos m) e
                         end).
  { destruct e as [|p|p].
    - rewrite Z.shiftl_0_r. lia.
    - rewrite Z.shiftl_mul_pow2 by lia.
      assert (1 <= 2 ^ Zpos p) by (pose proof (Z.pow_pos_nonneg 2 (Zpos p)); lia).
      nia.
    - rewrite Z.shiftr_div_pow2 by lia.
      assert (Hp : 2 ^ Zpos p <= 2 ^ 21) by (apply Z.pow_le_mono_r; lia).
      assert (Hpos : 0 < 2 ^ Zpos p) by (apply Z.pow_pos_nonneg; lia).
      apply Z.div_le_lower_bound; [exact Hpos|].
      change (2 ^ 52) with (2 ^ 21 * 2 ^ 31) in Hm.
      change (2 ^ 21) with 2097152 in *. change (2 ^ 31) with 2147483648 in *.
      nia. }
  unfold Int.in_range, Int.max_int.
  destruct (Z.leb_spec (match e with
                        | Zneg p => Z.shiftr (Zpos m) (Zpos p)
                        | _ => Z.shiftl (Zpos m) e
                        end) (2 ^ 31 - 1)) as [L|L]; [lia|].
  rewrite andb_false_r. reflexivity.
Qed.

Lemma zero_div_zero (x : float) :
  (x =? 0)%float = true -> (x / 0)%float = nan.
Proof.
  intros Hx. apply Prim2SF_inj. rewrite div_spec.
  destruct (eqb_zero x Hx) as [sgn ->]. reflexivity.
Qed.

(** ** The integer part as a real number *)

Lemma shift_bounds (m : positive) (e : Z) :
  let a := match e with
           | Zneg p => Z.shiftr (Zpos m) (Zpos p)
           | _ => Z.shiftl (Zpos m) e
           end in
  (IZR a <= IZR (Zpos m) * pow2 e < IZR a + 1)%R.
Proof.
  cbv zeta. destruct e as [|p|p].
  - rewrite Z.shiftl_0_r. unfold pow2. cbn [powerRZ]. lra.
  - rewrite Z.shiftl_mul_pow2 by lia. rewrite mult_IZR.
    rewrite (pow2_IZR (Zpos p)) by lia. lra.
  - rewrite Z.shiftr_div_pow2 by lia.
    pose proof (pow2_add (Zneg p) (Zpos p)) as E.
    replace (Zneg p + Zpos p) with 0 in E by lia.
    rewrite (pow2_IZR (Zpos p)) in E by lia.
    change (pow2 0) with 1%R in E.
    assert (Hd : 0 < 2 ^ Zpos p) by (apply Z.pow_pos_nonneg; lia).
    pose proof (Z.div_mod (Zpos m) (2 ^ Zpos p) ltac:(lia)) as Em.
    pose proof (Z.mod_pos_bound (Zpos m) (2 ^ Zpos p) Hd) as Bm.
    set (a := Zpos m / 2 ^ Zpos p) in *.
    set (r := Zpos m mod 2 ^ Zpos p) in *.
    set (D := 2 ^ Zpos p) in *.
    assert (EmR : IZR (Zpos m) = (IZR D * IZR a + IZR r)%R).
    { rewrite <- mult_IZR, <- plus_IZR. f_equal. exact Em. }
    assert (HD : (0 < IZR D)%R) by (apply IZR_lt; exact Hd).
    assert (Hr0 : (0 <= IZR r)%R) by (apply IZR_le; lia).
    assert (Hr1 : (IZR r < IZR D)%R) by (apply IZR_lt; lia).
    pose proof (pow2_pos (Zneg p)) as Hp.
    set (u := pow2 (Zneg p)) in *.
    rewrite EmR.
    replace ((IZR D * IZR a + IZR r) * u)%R
      with (IZR a * (u * IZR D) + IZR r * u)%R by ring.
    rewrite <- E.
    assert (0 <= IZR r * u)%R by nra.
    assert (IZR r * u < 1)%R by nra.
    lra.
Qed.

Lemma trunc_SF_bounds (x : spec_float) (n : Z) :
  Double.trunc_SF x = Some n ->
  (0 <= n /\ (IZR n <= SF2R x < IZR n + 1)%R)
  \/ (n <= 0 /\ (SF2R x < 0)%R /\ (IZR n - 1 < SF2R x <= IZR n)%R).
Proof.
  destruct x as [s|s| |s m e]; cbn [Double.trunc_SF]; try discriminate.
  - intros H. injection H as <-. left. cbn. split; [lia|lra].
  - intros H. injection H as <-.
    pose proof (shift_bounds m e) as B. cbv zeta in B.
    assert (A : 0 <= match e with
                     | Zneg p => Z.shiftr (Zpos m) (Zpos p)
                     | _ => Z.shiftl (Zpos m) e
                     end).
    { destruct e; [apply Z.shiftl_nonneg|apply Z.shiftl_nonneg
                   |apply Z.shiftr_nonneg]; lia. }
    assert (P : (0 < IZR (Zpos m) * pow2 e)%R).
    { apply Rmult_lt_0_compat; [apply IZR_lt; lia|apply pow2_pos]. }
    cbn [SF2R]. destruct s.
    + right. split; [lia|]. rewrite opp_IZR. split; lra.
    + left. split; [lia|]. lra.
Qed.

Lemma length_pairs {A B} (f g : A -> B) (l : list A) :
  List.length (flat_map (fun u => [f u; g u]) l) = (2 * List.length l)%nat.
Proof. induction l as [|a l IH]; cbn [flat_map List.length app]; lia. Qed.

Lemma due_head (write_freq n : Z) :
  1 <= n -> exists rest, due write_freq n = 0 :: rest.
Proof.
  intros H. unfold due. destruct (Z.to_nat n) as [|k] eqn:E; [lia|].
  cbn [Zseq filter]. change (Z.rem 0 write_freq) with 0. cbn [Z.eqb].
  eexists. reflexivity.
Qed.

Section Negation.
Context {C : Collaborators}.

Lemma body_calls_opp (wf n : Z) (dt : float) (t : Z) (st : Solver * float) :
  body_calls (- wf) n dt t st = body_calls wf n dt t st.
Proof.
  unfold body_calls, progress_calls, due_snapshot.
  rewrite Z.rem_opp_r'. reflexivity.
Qed.

Lemma run_trace_opp (k : nat) (wf n : Z) (dt : float) (t : Z)
    (st : Solver * float) :
  run_trace k (- wf) n dt t st = run_trace k wf n dt t st.
Proof.
  revert t st. induction k as [|k IH]; intros t st; [reflexivity|].
  cbn [run_trace]. rewrite body_calls_opp, IH. reflexivity.
Qed.

End Negation.

(** * The claims *)

(** C1 as amended: on a run of at least one step, [num_step] is the floor
    of the double quotient [t_final / _dt], [delta_t] is the double quotient
    [t_final / num_step], and every Integrator step of the run receives this
    [delta_t] whatever [write_freq] is; when [write_freq] is not zero,
    [solve] runs [num_step] steps, one in each iteration, each with this
    [delta_t], and returns with these two values.  The double product
    [delta_t * num_step] is [t_final] up to a relative error of [2^-51]
    when [t_final] is positive and finite and [delta_t] and the product are
    normal doubles.  For [t_final = 1.0] and [_dt = 0.01] there are 100
    steps, [delta_t] is [0.01], and the product is [1.0]. *)
Theorem C1_time_step_arithmetic {C : Collaborators}
    (s : Solver) (t_final : float) (n : Z) :
  num_step_of s t_final = Done n -> 1 <= n ->
  let delta_t := (t_final / Double.of_int n)%float in
  let product := (delta_t * Double.of_int n)%float in
  Double.floor (t_final / _dt s)%float = Some n
  /\ (forall write_freq : Z,
        Forall (steps_by delta_t) (snd (solve s t_final write_freq))
        /\ (forall ex tr,
              solve s t_final write_freq = (Done ex, tr) ->
              exit_num_step ex = n /\ exit_delta_t ex = delta_t)
        /\ (write_freq <> 0 ->
            exists ex tr,
              solve s t_final write_freq = (Done ex, tr)
              /\ step_events tr
                 = map (fun t => (Iteration t,
                                  TimeIntegrator_step (execution_space s)
                                    delta_t (_gravity s) (_bc s)))
                     (Zseq 0 (Z.to_nat n))))
  /\ ((0 <? t_final)%float = true -> (t_final <? infinity)%float = true ->
      (0x1p-1022 <=? delta_t)%float = true ->
      (delta_t <? infinity)%float = true ->
      (0x1p-1022 <=? product)%float = true ->
      (product <? infinity)%float = true ->
      (Rabs (B2R product - B2R t_final) <= B2R t_final / IZR (2 ^ 51))%R)
  /\ (_dt s = 0.01%float -> t_final = 1%float ->
      n = 100 /\ delta_t = 0.01%float /\ product = t_final).
Proof.
  intros Hn H1. cbv zeta. split; [|split; [|split]].
  - unfold num_step_of in Hn. apply to_int_Done in Hn. unfold Double.floor.
    rewrite <- trunc_floor_nonneg; [exact Hn|].
    exact (trunc_positive_sign _ n Hn H1).
  - intros write_freq. destruct (Z.eq_dec write_freq 0) as [->|Hw].
    + rewrite (solve_write_freq_zero s t_final n Hn H1). cbn [snd].
      split; [|split].
      * apply Forall_app. split.
        -- cbn [at_phase map snapshot_calls]. repeat constructor.
        -- destruct (_rank s =? 0); [constructor|].
           cbn [at_phase map core_calls]. repeat constructor.
      * intros ex tr H. discriminate H.
      * intros H. contradiction.
    + rewrite (solve_eq s t_final write_freq n Hw Hn). cbn [snd].
      split; [|split].
      * apply Forall_app. split.
        -- cbn [at_phase map snapshot_calls]. repeat constructor.
        -- apply run_trace_steps_by.
      * intros ex tr H. injection H as <- _. split; reflexivity.
      * intros _. eexists. eexists. split; [reflexivity|].
        rewrite step_events_app, run_trace_step_events. reflexivity.
  - apply div_then_mul_error.
  - intros Hdt ->. unfold num_step_of in Hn. rewrite Hdt in Hn.
    change (Double.to_int (1 / 0.01)%float) with (@Done Z 100) in Hn.
    injection Hn as <-. repeat split.
Qed.

(** C1 as amended, on the representative input. *)
Lemma C1_time_step_witness :
  num_step_of (Toy.built false 0 0.01%float) 1%float = Done 100
  /\ 1 <= 100
  /\ Double.floor (1 / 0.01)%float = Some 100
  /\ (1 / Double.of_int 100)%float = 0.01%float
  /\ (1 / Double.of_int 100 * Double.of_int 100)%float = 1%float
  /\ (Rabs (B2R (1 / Double.of_int 100 * Double.of_int 100) - B2R 1)
      <= B2R 1 / IZR (2 ^ 51))%R
  /\ Forall (steps_by 0.01%float)
       (snd (solve (Toy.built false 0 0.01%float) 1%float 5))
  /\ List.length
       (step_events (snd (solve (Toy.built false 0 0.01%float) 1%float 5)))
     = 100%nat.
Proof.
  split; [reflexivity|]. split; [lia|].
  destruct (C1_time_step_arithmetic (Toy.built false 0 0.01%float) 1%float
              100 eq_refl ltac:(lia))
    as (Hfloor & Hrun & Hclose & Hrep).
  split; [exact Hfloor|].
  destruct (Hrep eq_refl eq_refl) as (_ & Hd & Hp).
  split; [exact Hd|]. split; [exact Hp|]. split.
  - exact (Hclose eq_refl eq_refl eq_refl eq_refl eq_refl eq_refl).
  - destruct (Hrun 5) as (Hall & _ & Hret).
    split; [rewrite <- Hd; exact Hall|].
    destruct (Hret ltac:(discriminate)) as (ex & tr & E & Hsteps).
    rewrite E. cbn [snd]. rewrite Hsteps, length_map, Zseq_length.
    reflexivity.
Defined.

(** C1 as stated fails on a run of no step: for [t_final = 0.005] and
    [_dt = 0.01] the quotient truncates to [num_step = 0], [delta_t] is
    [0.005 / 0 = +infinity], and [delta_t * num_step] is [infinity * 0],
    which is not a number: it is not [t_final], and it is not within any
    distance of it.  [solve] returns with these values. *)
Lemma C1_counterexample :
  num_step_of (Toy.built false 0 0.01%float) 0.005%float = Done 0
  /\ delta_t_of 0.005%float 0 = infinity
  /\ (delta_t_of 0.005%float 0 * Double.of_int 0)%float = nan
  /\ (delta_t_of 0.005%float 0 * Double.of_int 0 =? 0.005)%float = false
  /\ (abs (delta_t_of 0.005%float 0 * Double.of_int 0 - 0.005)
      <=? infinity)%float = false
  /\ fst (solve (Toy.built false 0 0.01%float) 0.005%float 5)
     = Done (mkExit (Toy.built false 0 0.01%float) 0 infinity 0%float).
Proof. repeat split. Qed.

(** Beyond one step the product need not be [t_final] bit for bit: for
    [t_final = 1.0] and [_dt = 0.0204] there are 49 steps of
    [delta_t = 1.0 / 49], and [delta_t * 49] is the double just below
    [1.0], within the bound of the theorem. *)
Example product_rounds_below_t_final :
  num_step_of (Toy.built false 0 0.0204%float) 1%float = Done 49
  /\ delta_t_of 1%float 49 = 0.020408163265306121%float
  /\ (delta_t_of 1%float 49 * Double.of_int 49)%float
     = 0.99999999999999989%float
  /\ (delta_t_of 1%float 49 * Double.of_int 49 =? 1)%float = false.
Proof. repeat split. Qed.






(** The hypothesis on the mesh carries the statement: [solve] never
    assigns the boundary condition.  Were the bounds a mesh reports to move
    with its global grid, the second iteration of a run of two steps would
    still hand the Integrator the bounds [(4,4,4)] and [(13,13,13)] of
    construction, while the mesh rebuilt by the first iteration reports
    [(5,5,5)] and [(14,14,14)]. *)
Example bounds_rest_on_the_mesh :
  let s := Toy.built true 0 1%float in
  let s1 := fst (run_state 1 (delta_t_of 2%float 2) (s, 0%float)) in
  ~ @rebuild_keeps_bounds (Toy.collaborators true)
  /\ fst (createSolver Toy.serial_only "serial" (Toy.args true 0 1%float))
     = Done s
  /\ calls_at (Iteration 1) (snd (solve s 2%float 2))
     = [ @TimeIntegrator_step (Toy.collaborators true) Serial 1%float
           9.8%float
           (BoundaryCondition.mk "reflect"%string (4, 4, 4) (13, 13, 13));
         @pm_numParticle (Toy.collaborators true) 20;
         @lb_createBalancedGlobalGrid (Toy.collaborators true) 20%float 2;
         @mesh_newGlobalGrid (Toy.collaborators true) 2;
         @pm_updateMesh (Toy.collaborators true);
         @pm_communicateParticles (Toy.collaborators true) 3 ]
  /\ @minDomainGlobalNodeIndex (Toy.collaborators true) (_mesh s1) = (5, 5, 5)
  /\ @maxDomainGlobalNodeIndex (Toy.collaborators true) (_mesh s1)
     = (14, 14, 14)
  /\ ~ bounds_current s1.
Proof.
  cbv zeta. split.
  - intros K.
    destruct (K (Toy.mkMesh (8, 8, 8) 4 3 0) 1) as [H _].
    vm_compute in H. discriminate H.
  - split; [reflexivity|]. split; [reflexivity|].
    split; [reflexivity|]. split; [reflexivity|].
    intros [H _]. vm_compute in H. discriminate H.
Qed.

(** C4: a device string that is not one of serial, openmp, cuda, hip, or
    that names a backend left out of the build, makes [createSolver] throw
    a [std::runtime_error] with a non-empty message that tells which, and no
    constructor call has been made by then; for a recognized and enabled
    backend the function returns a solver, built by the constructor. *)
Theorem C4_createSolver_backend {C : Collaborators}
    (build : BuildConfig) (device : string) (a : SolverArgs) :
  ((~ In device recognized_backends \/ backend_enabled build device = false) ->
     createSolver build device a = (Throw (refusal device), [])
     /\ refusal device <> ""%string)
  /\ ((In device recognized_backends /\ backend_enabled build device = true) ->
       exists mem exec s tr,
         createSolver build device a = (Done s, tr)
         /\ make_Solver mem exec a = (Done s, tr)).
Proof.
  split.
  - intros H. split; [|apply refusal_nonempty].
    assert (E : backend_enabled build device = false).
    { destruct H as [H|H]; [|exact H].
      rewrite recognized_spec in H. unfold backend_enabled.
      destruct (String.eqb device "serial"); [exfalso; apply H; reflexivity|].
      destruct (String.eqb device "openmp"); [exfalso; apply H; reflexivity|].
      destruct (String.eqb device "cuda"); [exfalso; apply H; reflexivity|].
      destruct (String.eqb device "hip"); [exfalso; apply H; reflexivity|].
      reflexivity. }
    revert E. unfold backend_enabled, createSolver, refusal.
    destruct (String.eqb device "serial"); [intros ->; reflexivity|].
    destruct (String.eqb device "openmp"); [intros ->; reflexivity|].
    destruct (String.eqb device "cuda"); [intros ->; reflexivity|].
    destruct (String.eqb device "hip"); [intros ->; reflexivity|].
    reflexivity.
  - intros [_ E]. revert E. unfold backend_enabled, createSolver.
    destruct (String.eqb device "serial").
    { intros ->. exists HostSpace, Serial.
      destruct (make_Solver_done HostSpace Serial a) as (s & tr & -> & _).
      exists s, tr. split; reflexivity. }
    destruct (String.eqb device "openmp").
    { intros ->. exists HostSpace, OpenMP.
      destruct (make_Solver_done HostSpace OpenMP a) as (s & tr & -> & _).
      exists s, tr. split; reflexivity. }
    destruct (String.eqb device "cuda").
    { intros ->. exists CudaSpace, Cuda.
      destruct (make_Solver_done CudaSpace Cuda a) as (s & tr & -> & _).
      exists s, tr. split; reflexivity. }
    destruct (String.eqb device "hip").
    { intros ->. exists HIPSpace, HIP.
      destruct (make_Solver_done HIPSpace HIP a) as (s & tr & -> & _).
      exists s, tr. split; reflexivity. }
    discriminate.
Qed.

(** C4, in a build with the serial backend only: "cuda" is refused before
    anything is constructed, "serial" yields the solver of the constructor. *)
Lemma C4_createSolver_witness :
  createSolver Toy.serial_only "cuda" (Toy.args false 0 0.01%float)
  = (Throw "CUDA Backend Not Enabled", [])
  /\ exists mem exec s tr,
       createSolver Toy.serial_only "serial" (Toy.args false 0 0.01%float)
       = (Done s, tr)
       /\ make_Solver mem exec (Toy.args false 0 0.01%float) = (Done s, tr).
Proof.
  split.
  - exact (proj1 (proj1 (C4_createSolver_backend Toy.serial_only "cuda"
                           (Toy.args false 0 0.01%float))
                    (or_intror eq_refl))).
  - exact (proj2 (C4_createSolver_backend Toy.serial_only "serial"
                    (Toy.args false 0 0.01%float))
             (conj (or_introl eq_refl) eq_refl)).
Defined.

(** C5 as amended: when the quotient [t_final / _dt] converts to an [int]
    [n] and [write_freq] is not zero, [solve] returns after the iterations
    [t = 0, 1, .., n-1] (none when [n <= 0]), each of which runs the
    Integrator exactly once; nothing ends the loop early. *)
Theorem C5_loop_runs_num_step_iterations {C : Collaborators}
    (s : Solver) (t_final : float) (write_freq n : Z) :
  write_freq <> 0 -> num_step_of s t_final = Done n ->
  exists ex tr,
    solve s t_final write_freq = (Done ex, tr)
    /\ exit_num_step ex = n
    /\ phases_of is_step tr = map Iteration (Zseq 0 (Z.to_nat n))
    /\ List.length (phases_of is_step tr) = Z.to_nat n.
Proof.
  intros Hw Hn. rewrite (solve_eq s t_final write_freq n Hw Hn).
  eexists. eexists. split; [reflexivity|]. split; [reflexivity|].
  assert (E : phases_of is_step
                (at_phase BeforeLoop (snapshot_calls s 0 0%float)
                 ++ run_trace (Z.to_nat n) write_freq n
                      (delta_t_of t_final n) 0 (s, 0%float))
              = map Iteration (Zseq 0 (Z.to_nat n))).
  { rewrite phases_of_app, run_trace_steps. reflexivity. }
  split; [exact E|]. rewrite E, length_map, Zseq_length. reflexivity.
Qed.

(** C5 as amended, at a concrete run of three steps. *)
Lemma C5_loop_runs_witness :
  2 <> 0
  /\ num_step_of (Toy.built false 0 1%float) 3%float = Done 3
  /\ exists ex tr,
       solve (Toy.built false 0 1%float) 3%float 2 = (Done ex, tr)
       /\ exit_num_step ex = 3
       /\ phases_of is_step tr = [Iteration 0; Iteration 1; Iteration 2]
       /\ List.length (phases_of is_step tr) = 3%nat.
Proof.
  split; [discriminate|]. split; [reflexivity|].
  exact (C5_loop_runs_num_step_iterations (Toy.built false 0 1%float) 3%float
           2 3 ltac:(discriminate) eq_refl).
Defined.

(** C5 as stated fails: with [write_freq = 0] the first remainder is
    undefined and the run stops before any Integrator step on rank 0 though
    [num_step] is 3; a quotient beyond the range of [int] has no step count
    at all; and a negative [t_final] gives a negative [num_step] and no
    iteration. *)
Lemma C5_counterexample :
  (num_step_of (Toy.built false 0 1%float) 3%float = Done 3
   /\ fst (solve (Toy.built false 0 1%float) 3%float 0)
      = Undefined RemainderByZero
   /\ phases_of is_step (snd (solve (Toy.built false 0 1%float) 3%float 0))
      = [])
  /\ (fst (solve (Toy.built false 0 1%float) 1e300%float 1)
      = Undefined FloatToIntOutOfRange)
  /\ (num_step_of (Toy.built false 0 1%float) (-3)%float = Done (-3)
      /\ phases_of is_step
           (snd (solve (Toy.built false 0 1%float) (-3)%float 1)) = []).
Proof. repeat split. Qed.

(** C6: in every iteration [t] of a defined run, the calls are, in this
    order: the Integrator step, the particle count (the workload), the load
    balancer's new global grid for that workload, the mesh rebuilt on that
    grid, the problem manager updated to the mesh, the particle migration;
    then, when [t % write_freq == 0], the snapshot of the migrated state.
    Only the progress notice of rank 0 can come before the step. *)
Theorem C6_iteration_order {C : Collaborators}
    (s : Solver) (t_final : float) (write_freq n t : Z) :
  write_freq <> 0 -> num_step_of s t_final = Done n -> 0 <= t < n ->
  exists (s_t : Solver) (time_t : float) (notice snapshot : list call),
    let dt := delta_t_of t_final n in
    let pm1 := step (execution_space s_t) (_mesh s_t) (_pm s_t) dt
                 (_gravity s_t) (_bc s_t) in
    let work := Double.of_int (numParticle pm1) in
    let grid1 := snd (createBalancedGlobalGrid (_lb s_t)
                        (globalMesh (_mesh s_t)) (_partitioner s_t) work) in
    run_state (Z.to_nat t) dt (s, 0%float) = (s_t, time_t)
    /\ calls_at (Iteration t) (snd (solve s t_final write_freq))
       = notice
         ++ [ TimeIntegrator_step (execution_space s_t) dt (_gravity s_t)
                (_bc s_t);
              pm_numParticle (numParticle pm1);
              lb_createBalancedGlobalGrid work grid1;
              mesh_newGlobalGrid grid1;
              pm_updateMesh;
              pm_communicateParticles (_halo_min s_t) ]
         ++ snapshot
    /\ (notice = [] \/ notice = [printf_Step (t + 1) n])
    /\ (snapshot = [] /\ Z.rem t write_freq <> 0
        \/ snapshot = snapshot_calls (next_solver dt s_t) (t + 1) time_t
           /\ Z.rem t write_freq = 0).
Proof.
  intros Hw Hn Ht.
  destruct (run_state (Z.to_nat t) (delta_t_of t_final n) (s, 0%float))
    as [s_t time_t] eqn:E.
  exists s_t, time_t, (progress_calls s_t write_freq n t),
    (due_snapshot (delta_t_of t_final n) write_freq t (s_t, time_t)).
  cbv zeta. split; [exact E|]. split; [|split].
  - rewrite (solve_trace_eq s t_final write_freq n Hw Hn), calls_at_app.
    rewrite calls_at_other by reflexivity. cbn [app].
    pose proof (run_trace_calls_at (Z.to_nat n) write_freq n
                  (delta_t_of t_final n) 0 (s, 0%float) (Z.to_nat t)) as H.
    replace (0 + Z.of_nat (Z.to_nat t)) with t in H by lia.
    rewrite H by lia. rewrite E. reflexivity.
  - unfold progress_calls. destruct (_ && _); [right|left]; reflexivity.
  - unfold due_snapshot. cbn [fst snd].
    destruct (Z.eqb_spec (Z.rem t write_freq) 0) as [R|R];
      [right|left]; split; auto.
Qed.

(** C6, at iteration 1 of a concrete run of three steps. *)
Lemma C6_iteration_order_witness :
  2 <> 0
  /\ num_step_of (Toy.built false 0 1%float) 3%float = Done 3
  /\ 0 <= 1 < 3
  /\ exists notice snapshot,
       calls_at (Iteration 1)
         (snd (solve (Toy.built false 0 1%float) 3%float 2))
       = notice
         ++ [ @TimeIntegrator_step (Toy.collaborators false) Serial 1%float
                9.8%float
                (BoundaryCondition.mk "reflect"%string (4, 4, 4) (13, 13, 13));
              @pm_numParticle (Toy.collaborators false) 20;
              @lb_createBalancedGlobalGrid (Toy.collaborators false) 20%float
                2;
              @mesh_newGlobalGrid (Toy.collaborators false) 2;
              @pm_updateMesh (Toy.collaborators false);
              @pm_communicateParticles (Toy.collaborators false) 3 ]
         ++ snapshot.
Proof.
  split; [discriminate|]. split; [reflexivity|]. split; [lia|].
  destruct (C6_iteration_order (Toy.built false 0 1%float) 3%float 2 3 1
              ltac:(discriminate) eq_refl ltac:(lia))
    as (s_t & time_t & notice & snapshot & E & Hc & _).
  exists notice, snapshot. cbv zeta in Hc. rewrite Hc.
  vm_compute in E. injection E as <- <-. reflexivity.
Defined.



(** C8: the minimum halo width is the constant 3 of the constructor: the
    mesh is built with it, and it is the width every particle migration
    receives.  On a run of [n] steps each iteration [0 .. n-1] migrates the
    particles exactly once, with width 3; and in every run of [solve] on
    the constructed solver, completed or not, no migration receives any
    other width. *)
Theorem C8_minimum_halo_width {C : Collaborators}
    (mem : MemorySpace) (exec : ExecutionSpace) (a : SolverArgs) :
  exists s tr,
    make_Solver mem exec a = (Done s, tr)
    /\ _halo_min s = 3
    /\ _mesh s = make_Mesh mem (global_bounding_box a) (global_num_cell a)
                   (periodic a) (partitioner a) (halo_cell_width a) 3 (comm a)
    /\ In (Construction,
           construct_Mesh mem (global_bounding_box a) (global_num_cell a)
             (periodic a) (halo_cell_width a) 3) tr
    /\ (forall (t_final : float) (write_freq : Z),
          Forall (migrates_with 3) (snd (solve s t_final write_freq)))
    /\ (forall (t_final : float) (write_freq n : Z),
          write_freq <> 0 -> num_step_of s t_final = Done n ->
          migrations (snd (solve s t_final write_freq))
          = map (fun t => (Iteration t, pm_communicateParticles 3))
              (Zseq 0 (Z.to_nat n)))
    /\ (forall (t_final : float) (write_freq n t : Z),
          write_freq <> 0 -> num_step_of s t_final = Done n -> 0 <= t < n ->
          In (Iteration t, pm_communicateParticles 3)
            (snd (solve s t_final write_freq))).
Proof.
  destruct (make_Solver_done mem exec a) as (s & tr & E & Hmesh & Hhalo & _).
  assert (Hm : forall (t_final : float) (write_freq n : Z),
            write_freq <> 0 -> num_step_of s t_final = Done n ->
            migrations (snd (solve s t_final write_freq))
            = map (fun t => (Iteration t, pm_communicateParticles 3))
                (Zseq 0 (Z.to_nat n))).
  { intros t_final write_freq n Hw Hn.
    rewrite (solve_trace_eq s t_final write_freq n Hw Hn).
    rewrite migrations_app, run_trace_migrations. cbn [fst].
    rewrite Hhalo. reflexivity. }
  exists s, tr. split; [exact E|]. split; [exact Hhalo|].
  split; [exact Hmesh|]. split.
  { revert E. unfold make_Solver. cbn [bind emit ret app].
    intros E. injection E as _ <-. left. reflexivity. }
  split; [|split; [exact Hm|]].
  - intros t_final write_freq.
    apply (solve_Forall (fun s' => _halo_min s' = 3) (migrates_with 3)).
    + intros dt s' H. exact H.
    + intros wf n dt t [s' time] H. cbn [fst] in H.
      unfold body_calls, progress_calls, due_snapshot, core_calls, at_phase.
      cbn [fst snd]. rewrite !map_app.
      apply Forall_app; split; [|apply Forall_app; split].
      * destruct (_ && _); cbn [map]; repeat constructor.
      * cbn [map]. repeat constructor. exact H.
      * destruct (_ =? _); cbn [map snapshot_calls]; repeat constructor.
    + intros s' H. cbn [at_phase map snapshot_calls]. repeat constructor.
    + exact Hhalo.
  - intros t_final write_freq n t Hw Hn Ht.
    assert (Hin : In (Iteration t, pm_communicateParticles 3)
                    (migrations (snd (solve s t_final write_freq)))).
    { rewrite (Hm t_final write_freq n Hw Hn). apply in_map_iff.
      exists t. split; [reflexivity|]. apply Zseq_In. lia. }
    unfold migrations in Hin. apply filter_In in Hin. exact (proj1 Hin).
Qed.

(** C8, at a concrete run of three steps: three migrations, one in each
    iteration, each with width 3. *)
Lemma C8_minimum_halo_witness :
  fst (make_Solver HostSpace Serial (Toy.args false 0 1%float))
  = Done (Toy.built false 0 1%float)
  /\ 2 <> 0
  /\ num_step_of (Toy.built false 0 1%float) 3%float = Done 3
  /\ migrations (snd (solve (Toy.built false 0 1%float) 3%float 2))
     = [ (Iteration 0, @pm_communicateParticles (Toy.collaborators false) 3);
         (Iteration 1, @pm_communicateParticles (Toy.collaborators false) 3);
         (Iteration 2, @pm_communicateParticles (Toy.collaborators false) 3)
       ].
Proof.
  split; [reflexivity|]. split; [discriminate|]. split; [reflexivity|].
  destruct (C8_minimum_halo_width HostSpace Serial (Toy.args false 0 1%float))
    as (s & tr & E & _ & _ & _ & _ & Hm & _).
  assert (Es : s = Toy.built false 0 1%float).
  { revert E. unfold make_Solver. cbn [bind emit ret app].
    intros E. injection E as <- _. reflexivity. }
  subst s. exact (Hm 3%float 2 3 ltac:(discriminate) eq_refl).
Defined.

(** C9: whenever [0 < t_final < _dt], the quotient truncates to
    [num_step = 0], and [solve] goes on to divide [t_final] by that zero:
    there is no test of [num_step] on the way, the quotient is [+infinity],
    the loop body never runs and [solve] returns with that [delta_t]. *)
Theorem C9_division_by_zero_unguarded {C : Collaborators}
    (s : Solver) (t_final : float) (write_freq : Z) :
  (0 <? t_final)%float = true -> (t_final <? _dt s)%float = true ->
  num_step_of s t_final = Done 0
  /\ delta_t_of t_final 0 = (t_final / 0)%float
  /\ delta_t_of t_final 0 = infinity
  /\ solve s t_final write_freq
     = (Done (mkExit s 0 infinity 0%float),
        at_phase BeforeLoop (snapshot_calls s 0 0%float))
  /\ phases_of is_step (snd (solve s t_final write_freq)) = [].
Proof.
  intros H0 Hlt.
  assert (Hn : num_step_of s t_final = Done 0).
  { unfold num_step_of, Double.to_int.
    rewrite (SF_div_below_one t_final (_dt s) H0 Hlt). reflexivity. }
  assert (Hd : delta_t_of t_final 0 = infinity).
  { unfold delta_t_of. change (Double.of_int 0) with 0%float.
    apply div_by_zero. exact H0. }
  assert (Hs : solve s t_final write_freq
               = (Done (mkExit s 0 infinity 0%float),
                  at_phase BeforeLoop (snapshot_calls s 0 0%float))).
  { unfold solve. rewrite write_snapshot_eq, Hn. cbn [lift bind].
    rewrite Hd. cbn [Z.to_nat for_loop Z.ltb Z.compare ret bind fst snd].
    rewrite !app_nil_r. reflexivity. }
  split; [exact Hn|]. split; [reflexivity|]. split; [exact Hd|].
  split; [exact Hs|]. rewrite Hs. reflexivity.
Qed.

(** C9, for [t_final = 0.005] and a time step of [0.01]. *)
Lemma C9_division_by_zero_witness :
  (0 <? 0.005)%float = true
  /\ (0.005 <? _dt (Toy.built false 0 0.01%float))%float = true
  /\ num_step_of (Toy.built false 0 0.01%float) 0.005%float = Done 0
  /\ delta_t_of 0.005%float 0 = infinity
  /\ phases_of is_step
       (snd (solve (Toy.built false 0 0.01%float) 0.005%float 5)) = [].
Proof.
  split; [reflexivity|]. split; [reflexivity|].
  destruct (C9_division_by_zero_unguarded (Toy.built false 0 0.01%float)
              0.005%float 5 eq_refl eq_refl) as (H1 & _ & H3 & _ & H5).
  split; [exact H1|]. split; [exact H3|exact H5].
Defined.

(** C10: the constructor stores the caller's boundary condition with its
    [min] and [max] replaced by the node-index bounds of the mesh it has just
    built; the rule is the caller's, and the bounds the caller supplied have
    no influence on the solver that results. *)
Theorem C10_constructor_overwrites_bounds {C : Collaborators}
    (mem : MemorySpace) (exec : ExecutionSpace) (a : SolverArgs) :
  exists s tr,
    make_Solver mem exec a = (Done s, tr)
    /\ _mesh s = built_mesh mem a
    /\ BoundaryCondition.min (_bc s) = minDomainGlobalNodeIndex (_mesh s)
    /\ BoundaryCondition.max (_bc s) = maxDomainGlobalNodeIndex (_mesh s)
    /\ BoundaryCondition.rule (_bc s) = BoundaryCondition.rule (bc a)
    /\ forall lo hi : Array3 Z,
         make_Solver mem exec
           (with_bc a (BoundaryCondition.mk (BoundaryCondition.rule (bc a))
                         lo hi))
         = (Done s, tr).
Proof.
  eexists. eexists. split; [reflexivity|]. cbn [_mesh _bc].
  split; [reflexivity|]. split; [reflexivity|]. split; [reflexivity|].
  split; reflexivity.
Qed.

(** * Further properties of the driver

    Runs that end early, the stamps of the snapshots, what a run leaves
    unchanged, and the step count as a number. *)

(** X1: the step indices handed to the particle writer are [0] ahead of
    the loop and [t + 1] in each iteration [t] whose snapshot is due; they
    increase strictly, so no two snapshots of a run share an index, and
    none exceeds the step count or the range of [int]. *)
Theorem X1_snapshot_indices {C : Collaborators}
    (s : Solver) (t_final : float) (write_freq n : Z) :
  write_freq <> 0 -> num_step_of s t_final = Done n ->
  let labels := snapshot_labels (snd (solve s t_final write_freq)) in
  labels = 0 :: map (fun t => t + 1) (due write_freq n)
  /\ StronglySorted Z.lt labels
  /\ Forall (fun i => 0 <= i <= Z.max n 0 /\ i <= Int.max_int) labels.
Proof.
  intros Hw Hn. cbv zeta.
  rewrite (particle_snapshot_labels s t_final write_freq n Hw Hn).
  fold (due write_freq n). split; [reflexivity|].
  destruct (labels_sorted (fun t => Z.rem t write_freq =? 0) 0 (Z.to_nat n))
    as [Hs Hb]. fold (due write_freq n) in Hs, Hb.
  assert (Hmax : n <= Int.max_int).
  { destruct (num_step_of_cases s t_final) as [E|(n' & E & B)];
      rewrite E in Hn; [discriminate|]. injection Hn as <-. lia. }
  assert (0 <= Int.max_int) by (unfold Int.max_int; lia).
  split.
  - constructor; [exact Hs|]. revert Hb. apply Forall_impl. intros i. lia.
  - constructor; [lia|]. revert Hb. apply Forall_impl. intros i Hi. lia.
Qed.

(** X1, on a run of 23 steps with a snapshot every 5. *)
Lemma X1_snapshot_indices_witness :
  5 <> 0
  /\ num_step_of (Toy.built false 0 1%float) 23%float = Done 23
  /\ snapshot_labels (snd (solve (Toy.built false 0 1%float) 23%float 5))
     = [0; 1; 6; 11; 16; 21].
Proof.
  split; [discriminate|]. split; [reflexivity|].
  exact (proj1 (X1_snapshot_indices (Toy.built false 0 1%float) 23%float 5 23
                  ltac:(discriminate) eq_refl)).
Defined.

(** X2: the time written with the snapshot of iteration [t] is the value
    of [time] when the iteration starts, that is [t] additions of [delta_t]
    to [0.0]: the snapshot with index [t + 1] shows the state after
    [t + 1] steps under the time of [t] steps.  In particular the first
    snapshot of the loop (index 1) carries the time [0.0] of the initial
    snapshot.  At the exit [time] holds [num_step] such additions. *)
Theorem X2_snapshot_times {C : Collaborators}
    (s : Solver) (t_final : float) (write_freq n : Z) :
  write_freq <> 0 -> num_step_of s t_final = Done n ->
  let dt := delta_t_of t_final n in
  let stamps := snapshot_stamps (snd (solve s t_final write_freq)) in
  stamps = (0, 0%float)
           :: map (fun t => (t + 1, accumulated (Z.to_nat t) dt 0%float))
                (due write_freq n)
  /\ (1 <= n -> exists rest, stamps = (0, 0%float) :: (1, 0%float) :: rest)
  /\ exists ex tr,
       solve s t_final write_freq = (Done ex, tr)
       /\ exit_time ex = accumulated (Z.to_nat n) dt 0%float.
Proof.
  intros Hw Hn. cbv zeta.
  assert (E : snapshot_stamps (snd (solve s t_final write_freq))
              = (0, 0%float)
                :: map (fun t => (t + 1,
                          accumulated (Z.to_nat t) (delta_t_of t_final n)
                            0%float))
                     (due write_freq n)).
  { rewrite solve_stamps, Hn.
    destruct (Z.eqb_spec write_freq 0); [contradiction|reflexivity]. }
  split; [exact E|]. split.
  - intros H1. rewrite E. destruct (due_head write_freq n H1) as [rest ->].
    cbn [map]. eexists. reflexivity.
  - rewrite (solve_eq s t_final write_freq n Hw Hn).
    eexists. eexists. split; [reflexivity|]. cbn [exit_time].
    apply (run_state_time (Z.to_nat n) (delta_t_of t_final n) (s, 0%float)).
Qed.

(** X2, on a run of three steps of size 1 with a snapshot every 2. *)
Lemma X2_snapshot_times_witness :
  2 <> 0
  /\ num_step_of (Toy.built false 0 1%float) 3%float = Done 3
  /\ snapshot_stamps (snd (solve (Toy.built false 0 1%float) 3%float 2))
     = [(0, 0%float); (1, 0%float); (3, 2%float)].
Proof.
  split; [discriminate|]. split; [reflexivity|].
  exact (proj1 (X2_snapshot_times (Toy.built false 0 1%float) 3%float 2 3
                  ltac:(discriminate) eq_refl)).
Defined.

Ltac domain_files H :=
  repeat (apply Forall_cons || apply Forall_nil);
  unfold domain_file_of; cbn [snd]; try exact I;
  (split; [exact H
          |split; [reflexivity|(left; reflexivity) || (right; reflexivity)]]).

(** X3: in every run of [solve], whatever its arguments and however it
    ends, each domain file is written for the solver's communicator, under
    the step index [0], and with the base name [domain_act] or
    [domain_lb]: the index of the time step never reaches the domain
    writer. *)
Theorem X3_domain_files_index_zero {C : Collaborators}
    (s : Solver) (t_final : float) (write_freq : Z) :
  Forall (domain_file_of (_comm s)) (snd (solve s t_final write_freq)).
Proof.
  apply (solve_Forall (fun s' => _comm s' = _comm s)
           (domain_file_of (_comm s))).
  - intros dt s' H. exact H.
  - intros wf n dt t [s' time] H. cbn [fst] in H.
    unfold body_calls, progress_calls, due_snapshot, core_calls, at_phase.
    cbn [fst snd]. rewrite !map_app.
    apply Forall_app; split; [|apply Forall_app; split].
    + destruct (_ && _); cbn [map]; domain_files H.
    + cbn [map]. domain_files H.
    + destruct (_ =? _); cbn [map snapshot_calls next_solver _comm];
        domain_files H.
  - intros s' H. cbn [at_phase map snapshot_calls]. domain_files H.
  - reflexivity.
Qed.

(** X4: the progress notice is printed by rank 0 alone, once in each
    iteration [t] whose snapshot is due and nowhere else, and it reads
    [t + 1] of [num_step]; the other ranks print nothing. *)
Theorem X4_progress_notices {C : Collaborators}
    (s : Solver) (t_final : float) (write_freq n : Z) :
  write_freq <> 0 -> num_step_of s t_final = Done n ->
  progress_notices (snd (solve s t_final write_freq))
  = if _rank s =? 0
    then map (fun t => printf_Step (t + 1) n) (due write_freq n)
    else [].
Proof.
  intros Hw Hn. rewrite (solve_trace_eq s t_final write_freq n Hw Hn).
  rewrite progress_notices_app, run_trace_progress. reflexivity.
Qed.

(** X4, on three steps with a snapshot every 2, for rank 0 and rank 1. *)
Lemma X4_progress_notices_witness :
  2 <> 0
  /\ num_step_of (Toy.built false 0 1%float) 3%float = Done 3
  /\ progress_notices (snd (solve (Toy.built false 0 1%float) 3%float 2))
     = [ @printf_Step (Toy.collaborators false) 1 3;
         @printf_Step (Toy.collaborators false) 3 3 ]
  /\ progress_notices (snd (solve (Toy.built false 1 1%float) 3%float 2))
     = [].
Proof.
  split; [discriminate|]. split; [reflexivity|]. split.
  - exact (X4_progress_notices (Toy.built false 0 1%float) 3%float 2 3
             ltac:(discriminate) eq_refl).
  - exact (X4_progress_notices (Toy.built false 1 1%float) 3%float 2 3
             ltac:(discriminate) eq_refl).
Defined.

(** X5: how a call of [solve] ends, for all arguments.  Either the
    quotient [t_final / _dt] has no [int] value and the behaviour is
    undefined at the conversion; or it has the value [n], and then the call
    returns, with [num_step = n] and [delta_t = t_final / n], unless
    [write_freq] is zero and [n] is at least 1, in which case the remainder
    [t % write_freq] is undefined.  [solve] never throws, and its loop
    always terminates. *)
Theorem X5_solve_outcome {C : Collaborators}
    (s : Solver) (t_final : float) (write_freq : Z) :
  let end_ := fst (solve s t_final write_freq) in
  ((num_step_of s t_final = Undefined FloatToIntOutOfRange
    /\ end_ = Undefined FloatToIntOutOfRange)
   \/ exists n,
        num_step_of s t_final = Done n
        /\ ((1 <= n /\ write_freq = 0 /\ end_ = Undefined RemainderByZero)
            \/ ((n <= 0 \/ write_freq <> 0)
                /\ exists ex, end_ = Done ex /\ exit_num_step ex = n
                              /\ exit_delta_t ex = delta_t_of t_final n)))
  /\ end_ <> OutOfFuel
  /\ (forall what, end_ <> Throw what)
  /\ end_ <> Undefined RemainderOverflow.
Proof.
  cbv zeta.
  assert (H : (num_step_of s t_final = Undefined FloatToIntOutOfRange
               /\ fst (solve s t_final write_freq)
                  = Undefined FloatToIntOutOfRange)
              \/ exists n,
                   num_step_of s t_final = Done n
                   /\ ((1 <= n /\ write_freq = 0
                        /\ fst (solve s t_final write_freq)
                           = Undefined RemainderByZero)
                       \/ ((n <= 0 \/ write_freq <> 0)
                           /\ exists ex,
                                fst (solve s t_final write_freq) = Done ex
                                /\ exit_num_step ex = n
                                /\ exit_delta_t ex = delta_t_of t_final n))).
  { destruct (num_step_of_cases s t_final) as [E|(n & E & _)].
    - left. split; [exact E|].
      rewrite (solve_undefined_conversion s t_final write_freq E).
      reflexivity.
    - right. exists n. split; [exact E|].
      destruct (Z.eqb_spec write_freq 0) as [->|Hw].
      + destruct (Z.le_gt_cases n 0) as [Hn|Hn].
        * right. split; [left; exact Hn|].
          rewrite (solve_no_step s t_final 0 n E Hn).
          eexists. repeat split.
        * left. split; [lia|]. split; [reflexivity|].
          rewrite (solve_write_freq_zero s t_final n E) by lia. reflexivity.
      + right. split; [right; exact Hw|].
        rewrite (solve_eq s t_final write_freq n Hw E).
        eexists. repeat split. }
  split; [exact H|].
  destruct H as [[_ ->]|(n & _ & [(_ & _ & ->)|(_ & ex & -> & _)])];
    repeat split; intros; discriminate.
Qed.

(** X6: with [write_freq = 0] and at least one step to run, the remainder
    [t % write_freq] is undefined in the first iteration.  Rank 0
    evaluates it for the progress notice, ahead of the Integrator step;
    every other rank skips that test and evaluates it only for the
    snapshot, after one whole step, rebalancing and migration. *)
Theorem X6_write_freq_zero {C : Collaborators}
    (s : Solver) (t_final : float) (n : Z) :
  num_step_of s t_final = Done n -> 1 <= n ->
  solve s t_final 0
  = (Undefined RemainderByZero,
     at_phase BeforeLoop (snapshot_calls s 0 0%float)
     ++ (if _rank s =? 0 then []
         else at_phase (Iteration 0) (core_calls (delta_t_of t_final n) s)))
  /\ phases_of is_step (snd (solve s t_final 0))
     = (if _rank s =? 0 then [] else [Iteration 0]).
Proof.
  intros Hn H1. rewrite (solve_write_freq_zero s t_final n Hn H1).
  split; [reflexivity|]. cbn [snd]. rewrite phases_of_app.
  destruct (_rank s =? 0); reflexivity.
Qed.

(** X6, on rank 0 and on rank 1 of a run of three steps. *)
Lemma X6_write_freq_zero_witness :
  num_step_of (Toy.built false 0 1%float) 3%float = Done 3
  /\ 1 <= 3
  /\ fst (solve (Toy.built false 0 1%float) 3%float 0)
     = Undefined RemainderByZero
  /\ phases_of is_step (snd (solve (Toy.built false 0 1%float) 3%float 0))
     = []
  /\ phases_of is_step (snd (solve (Toy.built false 1 1%float) 3%float 0))
     = [Iteration 0].
Proof.
  split; [reflexivity|]. split; [lia|].
  destruct (X6_write_freq_zero (Toy.built false 0 1%float) 3%float 3 eq_refl
              ltac:(lia)) as [H0 H0'].
  destruct (X6_write_freq_zero (Toy.built false 1 1%float) 3%float 3 eq_refl
              ltac:(lia)) as [_ H1'].
  split; [rewrite H0; reflexivity|]. split; [exact H0'|exact H1'].
Defined.

(** X7: when [t_final] and [_dt] have opposite signs, or [t_final] is
    zero and [_dt] is not, [solve] writes the initial snapshot and nothing
    else: no Integrator step runs, whatever [write_freq] is.  The call
    returns with a step count of zero or less and the solver untouched, or
    the quotient has no [int] value.  For [t_final = 0] it returns with
    [num_step = 0] and a [delta_t] that is not a number. *)
Theorem X7_no_step_for_opposite_signs {C : Collaborators}
    (s : Solver) (t_final : float) (write_freq : Z) :
  opposite_signs t_final (_dt s) = true ->
  snd (solve s t_final write_freq)
  = at_phase BeforeLoop (snapshot_calls s 0 0%float)
  /\ phases_of is_step (snd (solve s t_final write_freq)) = []
  /\ (fst (solve s t_final write_freq) = Undefined FloatToIntOutOfRange
      \/ exists n,
           n <= 0
           /\ fst (solve s t_final write_freq)
              = Done (mkExit s n (delta_t_of t_final n) 0%float))
  /\ ((t_final =? 0)%float = true ->
      fst (solve s t_final write_freq) = Done (mkExit s 0 nan 0%float)).
Proof.
  intros Hs.
  assert (H : snd (solve s t_final write_freq)
              = at_phase BeforeLoop (snapshot_calls s 0 0%float)
              /\ (fst (solve s t_final write_freq)
                  = Undefined FloatToIntOutOfRange
                  \/ exists n,
                       n <= 0
                       /\ fst (solve s t_final write_freq)
                          = Done (mkExit s n (delta_t_of t_final n)
                                    0%float))).
  { destruct (num_step_of_cases s t_final) as [E|(n & E & _)].
    - rewrite (solve_undefined_conversion s t_final write_freq E).
      split; [reflexivity|left; reflexivity].
    - assert (Hn : n <= 0).
      { apply (div_opposite_signs t_final (_dt s) n Hs).
        apply to_int_Done. exact E. }
      rewrite (solve_no_step s t_final write_freq n E Hn).
      split; [reflexivity|]. right. exists n. split; [exact Hn|reflexivity]. }
  destruct H as [Htr Hend]. split; [exact Htr|]. split; [|split].
  - rewrite Htr. reflexivity.
  - exact Hend.
  - intros H0.
    assert (E : num_step_of s t_final = Done 0).
    { unfold num_step_of, Double.to_int.
      rewrite (div_of_zero t_final (_dt s) H0 Hs). reflexivity. }
    rewrite (solve_no_step s t_final write_freq 0 E) by lia.
    cbn [fst]. unfold delta_t_of. change (Double.of_int 0) with 0%float.
    rewrite (zero_div_zero t_final H0). reflexivity.
Qed.

(** X7, for the final times [-3.0] and [0.0] with a time step of [1.0],
    and for the final time [3.0] with a time step of [-1.0]. *)
Lemma X7_no_step_witness :
  opposite_signs (-3) (_dt (Toy.built false 0 1%float)) = true
  /\ phases_of is_step (snd (solve (Toy.built false 0 1%float) (-3)%float 0))
     = []
  /\ fst (solve (Toy.built false 0 1%float) 0%float 0)
     = Done (mkExit (Toy.built false 0 1%float) 0 nan 0%float)
  /\ phases_of is_step
       (snd (solve (Toy.built false 0 (-1)%float) 3%float 1)) = [].
Proof.
  split; [reflexivity|]. split; [|split].
  - exact (proj1 (proj2 (X7_no_step_for_opposite_signs
                           (Toy.built false 0 1%float) (-3)%float 0
                           eq_refl))).
  - exact (proj2 (proj2 (proj2 (X7_no_step_for_opposite_signs
                                  (Toy.built false 0 1%float) 0%float 0
                                  eq_refl))) eq_refl).
  - exact (proj1 (proj2 (X7_no_step_for_opposite_signs
                           (Toy.built false 0 (-1)%float) 3%float 1
                           eq_refl))).
Defined.

(** X8: when the time step size [_dt] is zero, or [_dt] or [t_final] is
    not a number, the quotient [t_final / _dt] is infinite or not a number,
    so its conversion to [int] is undefined for every [t_final]; the
    initial snapshot has been written by then. *)
Theorem X8_time_step_zero_or_nan {C : Collaborators}
    (s : Solver) (t_final : float) (write_freq : Z) :
  (_dt s =? 0)%float = true
  \/ (_dt s =? _dt s)%float = false
  \/ (t_final =? t_final)%float = false ->
  num_step_of s t_final = Undefined FloatToIntOutOfRange
  /\ solve s t_final write_freq
     = (Undefined FloatToIntOutOfRange,
        at_phase BeforeLoop (snapshot_calls s 0 0%float)).
Proof.
  intros H.
  assert (E : num_step_of s t_final = Undefined FloatToIntOutOfRange).
  { unfold num_step_of. apply to_int_None. destruct H as [H|[H|H]].
    - apply div_zero_divisor. exact H.
    - apply div_nan. right. exact H.
    - apply div_nan. left. exact H. }
  split; [exact E|]. apply solve_undefined_conversion. exact E.
Qed.

(** X8, for a time step of [0.0] and a final time of [1.0]. *)
Lemma X8_time_step_zero_witness :
  (_dt (Toy.built false 0 0%float) =? 0)%float = true
  /\ fst (solve (Toy.built false 0 0%float) 1%float 5)
     = Undefined FloatToIntOutOfRange.
Proof.
  split; [reflexivity|].
  rewrite (proj2 (X8_time_step_zero_or_nan (Toy.built false 0 0%float)
                    1%float 5 (or_introl eq_refl))).
  reflexivity.
Defined.

(** X9: a run of [n] steps with a non-zero [write_freq] writes
    [1 + ceil( n / |write_freq| )] particle files and twice as many domain
    files, and runs the Integrator [n] times ([n] counted as zero when
    negative). *)
Theorem X9_snapshot_count {C : Collaborators}
    (s : Solver) (t_final : float) (write_freq n : Z) :
  write_freq <> 0 -> num_step_of s t_final = Done n ->
  let files :=
    S (Z.to_nat ((Z.max n 0 + Z.abs write_freq - 1) / Z.abs write_freq)) in
  let tr := snd (solve s t_final write_freq) in
  List.length (phases_of is_particle_snapshot tr) = files
  /\ List.length (phases_of is_domain_snapshot tr) = (2 * files)%nat
  /\ List.length (phases_of is_step tr) = Z.to_nat n.
Proof.
  intros Hw Hn. cbv zeta.
  pose proof (solve_trace_eq s t_final write_freq n Hw Hn) as E.
  assert (P : phases_of is_particle_snapshot
                (snd (solve s t_final write_freq))
              = BeforeLoop :: map Iteration (due write_freq n)).
  { rewrite E, phases_of_app, run_trace_particle_snapshots. reflexivity. }
  assert (D : phases_of is_domain_snapshot
                (snd (solve s t_final write_freq))
              = [BeforeLoop; BeforeLoop]
                ++ flat_map (fun t => [Iteration t; Iteration t])
                     (due write_freq n)).
  { rewrite E, phases_of_app, run_trace_domain_snapshots. reflexivity. }
  assert (I : phases_of is_step (snd (solve s t_final write_freq))
              = map Iteration (Zseq 0 (Z.to_nat n))).
  { rewrite E, phases_of_app, run_trace_steps. reflexivity. }
  rewrite P, D, I. clear E P D I.
  rewrite length_app, length_pairs, length_map, Zseq_length.
  cbn [List.length]. rewrite length_map, (count_due write_freq n Hw).
  set (c := Z.to_nat _). repeat split; lia.
Qed.

(** X9, on a run of 23 steps with a snapshot every 5: six particle files
    and twelve domain files. *)
Lemma X9_snapshot_count_witness :
  5 <> 0
  /\ num_step_of (Toy.built false 0 1%float) 23%float = Done 23
  /\ List.length (phases_of is_particle_snapshot
                    (snd (solve (Toy.built false 0 1%float) 23%float 5)))
     = 6%nat
  /\ List.length (phases_of is_domain_snapshot
                    (snd (solve (Toy.built false 0 1%float) 23%float 5)))
     = 12%nat.
Proof.
  split; [discriminate|]. split; [reflexivity|].
  destruct (X9_snapshot_count (Toy.built false 0 1%float) 23%float 5 23
              ltac:(discriminate) eq_refl) as (H1 & H2 & _).
  split; [rewrite H1|rewrite H2]; reflexivity.
Defined.

(** X10: a call of [solve] that returns has changed the mesh, the problem
    manager and the load balancer only; [_dt], the gravity, the boundary
    condition, the halo width, the rank, the communicator and the
    partitioner are as before.  A further call on the same solver
    therefore computes the step count of a first call, and numbers and
    times its snapshots as a first call does, from index [0] and time
    [0.0]: [solve] does not go on from where the previous call stopped. *)
Theorem X10_solve_again {C : Collaborators}
    (s : Solver) (t_final : float) (write_freq : Z) (ex : SolveExit)
    (tr : trace) :
  solve s t_final write_freq = (Done ex, tr) ->
  same_settings s (exit_solver ex)
  /\ forall (t_final' : float) (write_freq' : Z),
       num_step_of (exit_solver ex) t_final' = num_step_of s t_final'
       /\ snapshot_stamps (snd (solve (exit_solver ex) t_final' write_freq'))
          = snapshot_stamps (snd (solve s t_final' write_freq'))
       /\ exists rest,
            snapshot_stamps
              (snd (solve (exit_solver ex) t_final' write_freq'))
            = (0, 0%float) :: rest.
Proof.
  intros H.
  pose proof (solve_exit_settings s t_final write_freq ex tr H) as F.
  split; [exact F|]. intros t_final' write_freq'.
  assert (E : num_step_of (exit_solver ex) t_final' = num_step_of s t_final').
  { unfold num_step_of. destruct F as (_ & _ & -> & _). reflexivity. }
  split; [exact E|]. rewrite !solve_stamps, E. split; [reflexivity|].
  eexists. reflexivity.
Qed.

(** X10, for two runs of three steps on one solver. *)
Lemma X10_solve_again_witness :
  exists ex tr,
    solve (Toy.built false 0 1%float) 3%float 2 = (Done ex, tr)
    /\ _dt (exit_solver ex) = _dt (Toy.built false 0 1%float)
    /\ snapshot_stamps (snd (solve (exit_solver ex) 3%float 2))
       = [(0, 0%float); (1, 0%float); (3, 2%float)].
Proof.
  pose proof (solve_eq (Toy.built false 0 1%float) 3%float 2 3
                ltac:(discriminate) eq_refl) as E.
  destruct (X10_solve_again (Toy.built false 0 1%float) 3%float 2 _ _ E)
    as [F G].
  eexists. eexists. split; [exact E|]. split.
  - destruct F as (_ & _ & F & _). exact F.
  - rewrite (proj1 (proj2 (G 3%float 2))). reflexivity.
Defined.

(** X11: a solver that [createSolver] returns was asked for under a
    device name whose backend is compiled in; it is the instance of
    [Solver] for that device: host memory with [Serial] or [OpenMP], CUDA
    memory with [Cuda], HIP memory with [HIP].  It holds the caller's time
    step size and gravity and the rank of the caller's communicator, and
    every Integrator step of every run on it executes in that execution
    space under that gravity. *)
Theorem X11_backend_spaces {C : Collaborators}
    (build : BuildConfig) (device : string) (a : SolverArgs) (s : Solver)
    (tr : trace) :
  createSolver build device a = (Done s, tr) ->
  backend_spaces device = Some (memory_space s, execution_space s)
  /\ backend_enabled build device = true
  /\ _dt s = delta_t a
  /\ _gravity s = gravity a
  /\ _rank s = MPI_Comm_rank (comm a)
  /\ forall (t_final : float) (write_freq : Z),
       Forall (steps_in (execution_space s) (gravity a))
         (snd (solve s t_final write_freq)).
Proof.
  intros H.
  assert (G : backend_spaces device = Some (memory_space s, execution_space s)
              /\ backend_enabled build device = true
              /\ _dt s = delta_t a
              /\ _gravity s = gravity a
              /\ _rank s = MPI_Comm_rank (comm a)).
  { revert H. unfold createSolver, backend_spaces, backend_enabled.
    destruct (String.eqb device "serial");
      [destruct (KOKKOS_ENABLE_SERIAL build); [|discriminate]
      |destruct (String.eqb device "openmp");
        [destruct (KOKKOS_ENABLE_OPENMP build); [|discriminate]
        |destruct (String.eqb device "cuda");
          [destruct (KOKKOS_ENABLE_CUDA build); [|discriminate]
          |destruct (String.eqb device "hip");
            [destruct (KOKKOS_ENABLE_HIP build); [|discriminate]
            |discriminate]]]];
      intros H; injection H as <- _; repeat split. }
  destruct G as (G1 & G2 & G3 & G4 & G5).
  split; [exact G1|]. split; [exact G2|]. split; [exact G3|].
  split; [exact G4|]. split; [exact G5|].
  intros t_final write_freq. rewrite <- G4.
  apply (solve_Forall
           (fun s' => execution_space s' = execution_space s
                      /\ _gravity s' = _gravity s)
           (steps_in (execution_space s) (_gravity s))).
  - intros dt s' K. exact K.
  - intros wf n dt t [s' time] K. cbn [fst] in K.
    unfold body_calls, progress_calls, due_snapshot, core_calls, at_phase.
    cbn [fst snd]. rewrite !map_app.
    apply Forall_app; split; [|apply Forall_app; split].
    + destruct (_ && _); cbn [map]; repeat constructor.
    + cbn [map]. repeat constructor; apply K.
    + destruct (_ =? _); cbn [map snapshot_calls]; repeat constructor.
  - intros s' K. cbn [at_phase map snapshot_calls]. repeat constructor.
  - split; reflexivity.
Qed.

(** X11, for the device [serial] in a build with the serial backend. *)
Lemma X11_backend_spaces_witness :
  fst (createSolver Toy.serial_only "serial" (Toy.args false 0 0.01%float))
  = Done (Toy.built false 0 0.01%float)
  /\ backend_spaces "serial" = Some (HostSpace, Serial)
  /\ Forall (steps_in Serial 9.8%float)
       (snd (solve (Toy.built false 0 0.01%float) 1%float 10)).
Proof.
  split; [reflexivity|].
  destruct (X11_backend_spaces Toy.serial_only "serial"
              (Toy.args false 0 0.01%float) (Toy.built false 0 0.01%float) _
              eq_refl) as (H1 & _ & _ & _ & _ & H6).
  split; [exact H1|]. exact (H6 1%float 10).
Defined.

(** X12: the step count is the double quotient [t_final / _dt] with its
    fraction discarded: an [int] [n] with [n <= q < n + 1] when the
    quotient [q] is zero or positive, and with [n - 1 < q <= n] when it is
    negative, so that a negative quotient is rounded up. *)
Theorem X12_num_step_truncates {C : Collaborators}
    (s : Solver) (t_final : float) (n : Z) :
  num_step_of s t_final = Done n ->
  let q := B2R (t_final / _dt s) in
  Int.min_int <= n <= Int.max_int
  /\ ((0 <= q)%R -> 0 <= n /\ (IZR n <= q < IZR n + 1)%R)
  /\ ((q < 0)%R -> n <= 0 /\ (IZR n - 1 < q <= IZR n)%R).
Proof.
  intros Hn. cbv zeta. split.
  - destruct (num_step_of_cases s t_final) as [E|(n' & E & B)];
      rewrite E in Hn; [discriminate|]. injection Hn as <-. exact B.
  - unfold num_step_of in Hn. apply to_int_Done in Hn.
    unfold B2R.
    destruct (trunc_SF_bounds _ n Hn) as [(H0 & B)|(H0 & Hq & B)].
    + apply IZR_le in H0 as H0'.
      split; [intros _; split; [exact H0|exact B]|]. intros Hq.
      exfalso. lra.
    + split; [intros Hq'; exfalso; lra|]. intros _.
      split; [exact H0|exact B].
Qed.

(** X12, for the quotient [-2.5], which gives [-2]. *)
Lemma X12_num_step_truncates_witness :
  num_step_of (Toy.built false 0 1%float) (-2.5)%float = Done (-2)
  /\ Int.min_int <= -2 <= Int.max_int.
Proof.
  split; [reflexivity|].
  exact (proj1 (X12_num_step_truncates (Toy.built false 0 1%float)
                  (-2.5)%float (-2) eq_refl)).
Defined.

(** X13: a negative [write_freq] is accepted and acts as its absolute
    value: a run with [- write_freq] makes the same calls with the same
    arguments and ends in the same way as the run with [write_freq]. *)
Theorem X13_negative_write_freq {C : Collaborators}
    (s : Solver) (t_final : float) (write_freq : Z) :
  solve s t_final (- write_freq) = solve s t_final write_freq.
Proof.
  destruct (Z.eq_dec write_freq 0) as [->|Hw]; [reflexivity|].
  destruct (num_step_of_cases s t_final) as [E|(n & E & _)].
  - rewrite !(solve_undefined_conversion s t_final _ E). reflexivity.
  - rewrite (solve_eq s t_final (- write_freq) n ltac:(lia) E).
    rewrite (solve_eq s t_final write_freq n Hw E).
    rewrite run_trace_opp. reflexivity.
Qed.

(** X14: on a run of at least one step, the state after the last step is
    written as a particle snapshot exactly when [write_freq] divides
    [num_step - 1]; otherwise the last snapshot of the run shows an
    earlier state and the final state is not written. *)
Theorem X14_final_state_snapshot {C : Collaborators}
    (s : Solver) (t_final : float) (write_freq n : Z) :
  write_freq <> 0 -> num_step_of s t_final = Done n -> 1 <= n ->
  In n (snapshot_labels (snd (solve s t_final write_freq)))
  <-> Z.rem (n - 1) write_freq = 0.
Proof.
  intros Hw Hn H1.
  rewrite (particle_snapshot_labels s t_final write_freq n Hw Hn).
  cbn [In]. rewrite in_map_iff. split.
  - intros [H|(t & Ht & Hin)]; [lia|].
    apply filter_In in Hin. destruct Hin as [_ Hr].
    apply Z.eqb_eq in Hr. replace (n - 1) with t by lia. exact Hr.
  - intros Hr. right. exists (n - 1). split; [lia|].
    apply filter_In. split.
    + apply Zseq_In. lia.
    + apply Z.eqb_eq. exact Hr.
Qed.

(** X14, on 23 steps with a snapshot every 5 (the last snapshot has index
    21) and on 21 steps (the state after step 21 is written). *)
Lemma X14_final_state_snapshot_witness :
  5 <> 0
  /\ num_step_of (Toy.built false 0 1%float) 23%float = Done 23
  /\ 1 <= 23
  /\ ~ In 23 (snapshot_labels
               (snd (solve (Toy.built false 0 1%float) 23%float 5)))
  /\ In 21 (snapshot_labels
              (snd (solve (Toy.built false 0 1%float) 21%float 5))).
Proof.
  split; [discriminate|]. split; [reflexivity|]. split; [lia|]. split.
  - intros H.
    apply (proj1 (X14_final_state_snapshot (Toy.built false 0 1%float)
                    23%float 5 23 ltac:(discriminate) eq_refl ltac:(lia)))
      in H.
    discriminate H.
  - apply (proj2 (X14_final_state_snapshot (Toy.built false 0 1%float)
                    21%float 5 21 ltac:(discriminate) eq_refl ltac:(lia))).
    reflexivity.
Defined.

(** X15: a quotient [t_final / _dt] of [2^31] or more, [+infinity]
    included, has no [int] value: a run that would take more than
    [2^31 - 1] steps has undefined behaviour at the conversion, after the
    initial snapshot has been written, and no step runs. *)
Theorem X15_too_many_steps {C : Collaborators}
    (s : Solver) (t_final : float) (write_freq : Z) :
  (2147483648 <=? t_final / _dt s)%float = true ->
  num_step_of s t_final = Undefined FloatToIntOutOfRange
  /\ solve s t_final write_freq
     = (Undefined FloatToIntOutOfRange,
        at_phase BeforeLoop (snapshot_calls s 0 0%float)).
Proof.
  intros H.
  assert (E : num_step_of s t_final = Undefined FloatToIntOutOfRange).
  { unfold num_step_of. apply trunc_above_int. exact H. }
  split; [exact E|]. apply solve_undefined_conversion. exact E.
Qed.

(** X15, for a final time of [1.0] and a time step of [1e-10]. *)
Lemma X15_too_many_steps_witness :
  (2147483648 <=? 1 / _dt (Toy.built false 0 1e-10%float))%float = true
  /\ fst (solve (Toy.built false 0 1e-10%float) 1%float 100)
     = Undefined FloatToIntOutOfRange.
Proof.
  split; [reflexivity|].
  rewrite (proj2 (X15_too_many_steps (Toy.built false 0 1e-10%float) 1%float
                    100 eq_refl)).
  reflexivity.
Defined.
